(** * IGS036 program-ROM decryption (src/mame/machine/igs036crypt.cpp)

    A shallow embedding of [igs036_decryptor] and the properties of its
    word transform.  C [int] values are mathematical integers: every
    intermediate of the transform is far below 2^31, and the narrowing
    conversions to [uint16_t] / [int] are written out as [to_u16] /
    [to_int]. *)

From Stdlib Require Import ZArith Lia Bool List.
From Stdlib.Strings Require Import Byte.
From stdpp Require Import base list.
Import ListNotations.

Local Open Scope Z_scope.

(** ** Machine integers *)

(** Conversion of an [int] to [uint16_t]. *)
Definition to_u16 (x : Z) : Z := x mod 2 ^ 16.

(** Conversion of a 32-bit unsigned quantity to [int]. *)
Definition to_int (x : Z) : Z := (x + 2 ^ 31) mod 2 ^ 32 - 2 ^ 31.

(** A C condition: any non-zero integer is true. *)
Definition truthy (x : Z) : bool := negb (x =? 0).

(** Array subscript [a[i]] on a constant table. *)
Definition sub {A : Type} (d : A) (a : list A) (i : Z) : A :=
  nth (Z.to_nat i) a d.

(** Modelled from the spec: the macro [BIT(x,n)] of emu.h, which is not
    part of this file; the single bit [n] of [x], as 0 or 1. *)
Definition BIT (x n : Z) : Z := Z.land (Z.shiftr x n) 1.

(** Modelled from the spec: the macro [BITSWAP16(val,B15,...,B0)] of
    emu.h, which is not part of this file; output bit positions 15..0 are
    sourced from the input bit positions [B15]..[B0] in that order. *)
Definition BITSWAP16 (val b15 b14 b13 b12 b11 b10 b9 b8
                          b7 b6 b5 b4 b3 b2 b1 b0 : Z) : Z :=
  Z.lor (Z.shiftl (BIT val b15) 15)
 (Z.lor (Z.shiftl (BIT val b14) 14)
 (Z.lor (Z.shiftl (BIT val b13) 13)
 (Z.lor (Z.shiftl (BIT val b12) 12)
 (Z.lor (Z.shiftl (BIT val b11) 11)
 (Z.lor (Z.shiftl (BIT val b10) 10)
 (Z.lor (Z.shiftl (BIT val b9) 9)
 (Z.lor (Z.shiftl (BIT val b8) 8)
 (Z.lor (Z.shiftl (BIT val b7) 7)
 (Z.lor (Z.shiftl (BIT val b6) 6)
 (Z.lor (Z.shiftl (BIT val b5) 5)
 (Z.lor (Z.shiftl (BIT val b4) 4)
 (Z.lor (Z.shiftl (BIT val b3) 3)
 (Z.lor (Z.shiftl (BIT val b2) 2)
 (Z.lor (Z.shiftl (BIT val b1) 1)
        (Z.shiftl (BIT val b0) 0))))))))))))))).

(** ** The boolean functions of the eight lowest address bits and the
    two dispatch tables (lines 188-229) *)

Definition unknown (address : Z) : Z := 0.
Definition cZero   (address : Z) : Z := 0.
Definition cOne    (address : Z) : Z := 1.
Definition bit_3   (address : Z) : Z := BIT address 3.
Definition bit_4   (address : Z) : Z := BIT address 4.
Definition bit_7   (address : Z) : Z := BIT address 7.
Definition not_3   (address : Z) : Z := Z.lxor (BIT address 3) 1.
Definition not_4   (address : Z) : Z := Z.lxor (BIT address 4) 1.
Definition not_7   (address : Z) : Z := Z.lxor (BIT address 7) 1.
Definition xor_37  (address : Z) : Z := Z.lxor (BIT address 3) (BIT address 7).
Definition xnor_37 (address : Z) : Z :=
  Z.lxor (Z.lxor (BIT address 3) (BIT address 7)) 1.
Definition xor_47  (address : Z) : Z := Z.lxor (BIT address 4) (BIT address 7).
Definition xnor_47 (address : Z) : Z :=
  Z.lxor (Z.lxor (BIT address 4) (BIT address 7)) 1.
Definition nor_34  (address : Z) : Z :=
  Z.lxor (Z.lor (BIT address 3) (BIT address 4)) 1.
Definition impl_43 (address : Z) : Z :=
  Z.b2z (truthy (BIT address 3) || truthy (Z.lxor (BIT address 4) 1)).

Definition rot_enabling : list (list (Z -> Z)) :=
  [ [bit_3  ; not_3  ; bit_3  ; not_3  ];
    [bit_3  ; not_3  ; bit_3  ; not_3  ];
    [bit_4  ; bit_4  ; bit_4  ; bit_4  ];
    [bit_4  ; not_4  ; bit_4  ; not_4  ];
    [bit_3  ; bit_3  ; bit_3  ; bit_3  ];
    [nor_34 ; bit_7  ; bit_7  ; cZero  ];
    [cZero  ; cOne   ; cZero  ; cOne   ];
    [impl_43; xor_37 ; xnor_37; not_3  ];
    [bit_3  ; bit_3  ; not_3  ; not_3  ];
    [bit_4  ; bit_4  ; not_4  ; not_4  ];
    [cZero  ; cZero  ; cZero  ; cZero  ];
    [nor_34 ; bit_7  ; not_7  ; cOne   ];
    [bit_3  ; not_3  ; bit_3  ; not_3  ];
    [cZero  ; cOne   ; cOne   ; cZero  ];
    [unknown; unknown; unknown; unknown];
    [unknown; unknown; unknown; unknown] ].

Definition rot_direction : list (list (Z -> Z)) :=
  [ [bit_3  ; xor_37 ; xnor_37; not_3  ; bit_3  ; xor_37 ; xnor_37; not_3  ];
    [cZero  ; not_7  ; not_7  ; cZero  ; cZero  ; not_7  ; not_7  ; cZero  ];
    [bit_4  ; xor_47 ; xnor_47; not_4  ; bit_4  ; xor_47 ; xnor_47; not_4  ];
    [bit_3  ; not_7  ; bit_7  ; cZero  ; cOne   ; not_7  ; bit_7  ; cZero  ] ].

(** [table[i][j]] on one of the two dispatch tables. *)
Definition sub2 (table : list (list (Z -> Z))) (i j : Z) : Z -> Z :=
  sub cZero (sub [] table i) j.

(** The triggers describe under what conditions every one of the 16 XORs
    is activated: [(triggers[i][0], triggers[i][1])] (lines 169-174). *)
Definition triggers : list (Z * Z) :=
  [ (0x0001, 0x0000); (0x0008, 0x0008); (0x0002, 0x0000); (0x0004, 0x0004);
    (0x0100, 0x0000); (0x0200, 0x0000); (0x0400, 0x0000); (0x0800, 0x0800);
    (0x1001, 0x0001); (0x2002, 0x2000); (0x4004, 0x4000); (0x8008, 0x0000);
    (0x0010, 0x0010); (0x0020, 0x0020); (0x0040, 0x0000); (0x0081, 0x0081) ].

(** ** The rotation (lines 107-157) *)

Definition group15 : list Z := [15; 11; 7; 5].
Definition group14 : list Z := [14; 9; 3; 2].
Definition group13 : list Z := [13; 10; 6; 1].
Definition group12 : list Z := [12; 8; 4; 0].

(** The loop of [rot_enabled], entered at index [j] with [n] iterations
    left; [enabled] is still 0 whenever the loop is running. *)
Fixpoint rot_enabled_from (address : Z) (group : list Z) (j : Z) (n : nat) : Z :=
  match n with
  | O => 0
  | S n' =>
      if truthy (BIT address (8 + sub 0 group j)) then
        let aux := Z.lxor address (0x1b * BIT address 2) in
        sub2 rot_enabling (sub 0 group j) (Z.land aux 3) aux
      else rot_enabled_from address group (j + 1) n'
  end.

Definition rot_enabled (address : Z) (group : list Z) : Z :=
  rot_enabled_from address group 0 4.

Definition rot_group (address : Z) (group : list Z) : Z :=
  let aux := sub2 rot_direction (Z.land (sub 0 group 0) 3) (Z.land address 7) address in
  aux * 2 - 1.

(** The part of [rotation] depending on all the address bits
    (the local [rot]). *)
Definition rotation_rot (address : Z) : Z :=
  let enabled0 := rot_enabled address group15 in
  let rot := enabled0 * rot_group address group15 * 9 in
  let enabled1 := Z.lxor enabled0 (rot_enabled address group14) in
  let rot := rot + enabled1 * rot_group address group14 * 1 in
  let enabled2 := Z.lxor enabled0 (rot_enabled address group13) in
  let rot := rot + enabled2 * rot_group address group13 * 2 in
  let enabled3 := Z.lxor enabled0 (rot_enabled address group12) in
  let rot := rot + enabled3 * rot_group address group12 * 4 in
  rot.

(** The block-independent part of [rotation] (the local [rot2]). *)
Definition rotation_rot2 (address : Z) : Z :=
  let rot2 := 4 * BIT address 0 in
  let rot2 := rot2 + 1 * BIT address 4 * (BIT address 0 * 2 - 1) in
  let rot2 := rot2 + 4 * BIT address 3 * (BIT address 0 * 2 - 1) in
  let rot2 := rot2 * (Z.lor (BIT address 7)
                            (Z.lxor (Z.lxor (BIT address 0) (BIT address 1)) 1) * 2 - 1) in
  let rot2 := rot2 + 2 * Z.land (Z.lxor (BIT address 0) (BIT address 1))
                                (Z.lxor (BIT address 7) 1) in
  rot2.

Definition rotation (address : Z) : Z :=
  Z.land (rotation_rot address + rotation_rot2 address) 0xf.

(** ** The word transform (lines 79-105 and 159-165) *)

Definition rol (num shift : Z) : Z :=
  let r := to_u16 (Z.shiftl num shift) in
  let l := to_u16 (Z.shiftr num (16 - shift)) in
  to_u16 (Z.lor r l).

Definition deobfuscate (cipherword word_address : Z) : Z :=
  let shift := rotation word_address in
  let aux := rol cipherword shift in
  let aux := BITSWAP16 aux 10 9 8 7 0 15 6 5 14 13 4 3 12 11 2 1 in
  to_u16 aux.

(** One iteration of the key-dependent loop of [decrypt]. *)
Definition decrypt_step (key : list Z) (word_address i aux : Z) : Z :=
  if truthy (BIT (sub 0 key (Z.land word_address 0xff)) i) then
    if Z.land (Z.shiftr word_address 8) (fst (sub (0, 0) triggers i))
       =? snd (sub (0, 0) triggers i)
    then Z.lxor aux (Z.shiftl 1 i)
    else aux
  else aux.

(** The loop of [decrypt], entered at index [i] with [n] iterations left. *)
Fixpoint decrypt_from (key : list Z) (word_address i : Z) (n : nat) (aux : Z) : Z :=
  match n with
  | O => aux
  | S n' => decrypt_from key word_address (i + 1) n' (decrypt_step key word_address i aux)
  end.

Definition decrypt (key : list Z) (cipherword word_address : Z) : Z :=
  let aux := deobfuscate cipherword word_address in
  let aux := decrypt_from key word_address 0 16 aux in
  to_u16 (Z.lxor aux 0x1a3a).

(** The key of one title (lines 238-271), 256 values indexed by the
    lowest address byte. *)
Definition orleg2_key : list Z :=
  [
    0x8100; 0x9202; 0x3000; 0x1200; 0x0100; 0x0800; 0x2100; 0xab05;
    0x130a; 0xba0a; 0x0308; 0x9200; 0x8306; 0xab0f; 0x200c; 0x0301;
    0x9010; 0x1b13; 0x1310; 0x1b11; 0x8104; 0x0212; 0x8204; 0x8214;
    0x8302; 0x1111; 0x8300; 0x1b19; 0x0110; 0x8202; 0x0310; 0x0301;
    0x8322; 0xb202; 0xb200; 0x9121; 0x8222; 0x0a26; 0x2000; 0x0321;
    0xb000; 0x0020; 0x9328; 0x3909; 0x230a; 0x8929; 0x8224; 0x2204;
    0x0322; 0x9b33; 0x0300; 0x9311; 0x8120; 0x8810; 0x0330; 0x0004;
    0x832a; 0x8a0a; 0x0100; 0x1131; 0x0138; 0x093d; 0x8128; 0x081c;
    0xe342; 0x8101; 0xf140; 0x0000; 0x6144; 0x2004; 0x8204; 0x4044;
    0xa302; 0xdb4b; 0x1000; 0xa200; 0xc044; 0xe044; 0x010c; 0x0204;
    0x1212; 0xdb53; 0xd050; 0xcb41; 0x4150; 0xc347; 0x4340; 0x0101;
    0x5252; 0xd959; 0x1310; 0xc040; 0xc252; 0xc959; 0x4340; 0x8919;
    0x2202; 0x3800; 0xe340; 0x2101; 0x0326; 0x2307; 0x4360; 0x8321;
    0x3000; 0xbb0b; 0x5068; 0xf848; 0x436a; 0xab0b; 0xa10c; 0xe240;
    0xc140; 0xc363; 0x8300; 0x4961; 0x0004; 0xc860; 0x0324; 0x0000;
    0xd070; 0x8101; 0xd070; 0x1331; 0x0104; 0x4a6e; 0x4348; 0x4a78;
    0xa282; 0xb282; 0x0200; 0x2200; 0x8180; 0x8080; 0x8080; 0x0800;
    0x1302; 0x9989; 0x2008; 0x2000; 0xa386; 0x0b0f; 0x828c; 0xa280;
    0x9392; 0x9292; 0x1010; 0x8080; 0x0206; 0x8383; 0x8294; 0x0911;
    0x8382; 0x0a0a; 0x9190; 0x1010; 0x0008; 0x0b0b; 0x8098; 0x8b9d;
    0x1120; 0x0820; 0x2200; 0xa080; 0x81a4; 0xa286; 0xa380; 0xaa80;
    0x0120; 0x1020; 0xb088; 0x1020; 0x2000; 0x0b2b; 0x2100; 0x2a0c;
    0x9292; 0x98b0; 0x1330; 0x8880; 0x8396; 0x0b17; 0x8080; 0x0325;
    0x0000; 0x99b9; 0x92b0; 0x82a0; 0x8184; 0x0020; 0x0330; 0x0818;
    0xe1c0; 0xa981; 0xd1c0; 0xd0c0; 0x6140; 0x4242; 0xc2c4; 0x6345;
    0xb088; 0x7141; 0x4040; 0xa181; 0x220e; 0xe0c4; 0x4144; 0x6a4c;
    0xd0d0; 0x9a92; 0x1310; 0xd9d1; 0x8392; 0xc0c4; 0x8284; 0x8890;
    0xc0c0; 0x8282; 0x8280; 0x9090; 0x4342; 0x0a0a; 0x4240; 0xc1d5;
    0xb080; 0xb282; 0xc1e0; 0x90a0; 0xa084; 0x4b63; 0x81a0; 0xeac0;
    0x7242; 0x5363; 0x7348; 0x0321; 0x022a; 0x6949; 0x4360; 0x8aa8;
    0x8282; 0x0303; 0x8180; 0x1331; 0x83a2; 0x4b53; 0x4364; 0x83b1;
    0x121a; 0x80a0; 0x1238; 0x0000; 0x82ba; 0x0030; 0xc0c0; 0x4264 ].

(** ** Reading the transform off the specification *)

(** The condition under which the one-bit XOR number [i] fires at
    [address]: the title key enables it for the lowest address byte, and
    the highest address bits match the trigger of that bit. *)
Definition fires (key : list Z) (address i : Z) : bool :=
  Z.testbit (sub 0 key (Z.land address 0xff)) i
  && (Z.land (Z.shiftr address 8) (fst (sub (0, 0) triggers i))
      =? snd (sub (0, 0) triggers i)).

(** The block contribution as a formula over the five address bits it
    names. *)
Definition rot2_formula (b0 b1 b3 b4 b7 : bool) : Z :=
  let t := 4 * Z.b2z b0 in
  let t := t + Z.b2z b4 * (2 * Z.b2z b0 - 1) in
  let t := t + 4 * Z.b2z b3 * (2 * Z.b2z b0 - 1) in
  let t := t * (2 * Z.b2z (b7 || xorb (xorb b0 b1) true) - 1) in
  let t := t + 2 * Z.b2z (xorb b0 b1 && negb b7) in
  t.

(** A function of the address that consults bits 3, 4 and 7 only, as
    every entry of the two dispatch tables does. *)
Definition consults_3_4_7 (f : Z -> Z) : Prop :=
  forall x y : Z,
    Z.testbit x 3 = Z.testbit y 3 ->
    Z.testbit x 4 = Z.testbit y 4 ->
    Z.testbit x 7 = Z.testbit y 7 ->
    f x = f y.

(** Two addresses that agree on every bit except possibly bits 5 and 6. *)
Definition agree_off_5_6 (a a' : Z) : Prop :=
  forall n : Z, 0 <= n -> n <> 5 -> n <> 6 -> Z.testbit a n = Z.testbit a' n.

(** The inverse of the obfuscation: the inverse of the fixed bit
    permutation, then the rotation undone (a right rotation by the same
    amount). *)
Definition ror (num shift : Z) : Z :=
  let r := to_u16 (Z.shiftr num shift) in
  let l := to_u16 (Z.shiftl num (16 - shift)) in
  to_u16 (Z.lor r l).

Definition obfuscate_inverse (word word_address : Z) : Z :=
  let aux := BITSWAP16 word 10 7 6 3 2 15 14 13 12 9 8 5 4 1 0 11 in
  ror (to_u16 aux) (rotation word_address).

(** The wiring of the two permutations read off their argument lists:
    output bit [i] of the permutation of [deobfuscate] comes from input
    bit [swap_source i], and output bit [i] of the inverse permutation
    from input bit [unswap_source i]. *)
Definition swap_source (i : Z) : Z :=
  sub 0 [1; 2; 11; 12; 3; 4; 13; 14; 5; 6; 15; 0; 7; 8; 9; 10] i.

Definition unswap_source (i : Z) : Z :=
  sub 0 [11; 0; 1; 4; 5; 8; 9; 12; 13; 14; 15; 2; 3; 6; 7; 10] i.

(** ** The region transform (lines 69-77) *)

(** Modelled from the spec: the class [memory_region] of the emulator
    core, which is not part of this file; a caller-owned contiguous buffer
    of bytes, [bytes()] being its length and [base()] its first byte. *)
Definition memory_region : Type := list byte.

Definition byte_val (b : byte) : Z := Z.of_N (Byte.to_N b).

Definition byte_of (z : Z) : byte :=
  match Byte.of_N (Z.to_N (z mod 256)) with
  | Some b => b
  | None => x00
  end.

(** [rom[i]] read through the [uint16_t*] view of the region; [be] tells
    whether the host stores the high byte first. *)
Definition rom_get (be : bool) (rom : list byte) (i : Z) : Z :=
  let b0 := byte_val (sub x00 rom (2 * i)) in
  let b1 := byte_val (sub x00 rom (2 * i + 1)) in
  if be then b0 * 256 + b1 else b1 * 256 + b0.

(** [rom[i] = w] through the same view. *)
Definition rom_set (be : bool) (rom : list byte) (i w : Z) : list byte :=
  let lo := byte_of w in
  let hi := byte_of (w / 256) in
  if be
  then <[Z.to_nat (2 * i + 1) := lo]> (<[Z.to_nat (2 * i) := hi]> rom)
  else <[Z.to_nat (2 * i + 1) := hi]> (<[Z.to_nat (2 * i) := lo]> rom).

(** The loop of [decrypter_rom], entered at index [i] with [n] iterations
    left. *)
Fixpoint decrypter_rom_from (key : list Z) (be : bool) (rom : list byte)
    (i : Z) (n : nat) : list byte :=
  match n with
  | O => rom
  | S n' =>
      decrypter_rom_from key be
        (rom_set be rom i (decrypt key (rom_get be rom i) i)) (i + 1) n'
  end.

Definition decrypter_rom (key : list Z) (be : bool) (region : memory_region)
    : list byte :=
  let size := to_int (Z.of_nat (length region)) in
  decrypter_rom_from key be region 0 (Z.to_nat (size ÷ 2)).

(** The region seen as its sequence of 16-bit words. *)
Definition region_words (be : bool) (rom : list byte) : list Z :=
  rom_get be rom <$> seqZ 0 (Z.of_nat (length rom) / 2).

(** ** Evaluation with the undefined cases made explicit

    The same functions, evaluated so that a shift by a negative amount or
    by the width of [int] or more, a left shift whose result does not fit
    an [int], and a subscript outside its array give no result.  The
    fifteen boolean functions and the expansion of [BITSWAP16], which
    shift by literal amounts below 16 only, are evaluated as above. *)
Module Partial.

Definition shl (x n : Z) : option Z :=
  if (0 <=? n) && (n <? 32) && (0 <=? x) && (Z.shiftl x n <? 2 ^ 31)
  then Some (Z.shiftl x n) else None.

Definition shr (x n : Z) : option Z :=
  if (0 <=? n) && (n <? 32) then Some (Z.shiftr x n) else None.

Definition at_ {A : Type} (a : list A) (i : Z) : option A :=
  if 0 <=? i then a !! Z.to_nat i else None.

Definition BIT (x n : Z) : option Z :=
  v ← shr x n; Some (Z.land v 1).

Fixpoint rot_enabled_from (address : Z) (group : list Z) (j : Z) (n : nat)
    : option Z :=
  match n with
  | O => Some 0
  | S n' =>
      g ← at_ group j;
      b ← BIT address (8 + g);
      if truthy b then
        b2 ← BIT address 2;
        let aux := Z.lxor address (0x1b * b2) in
        row ← at_ rot_enabling g;
        f ← at_ row (Z.land aux 3);
        Some (f aux)
      else rot_enabled_from address group (j + 1) n'
  end.

Definition rot_enabled (address : Z) (group : list Z) : option Z :=
  rot_enabled_from address group 0 4.

Definition rot_group (address : Z) (group : list Z) : option Z :=
  g ← at_ group 0;
  row ← at_ rot_direction (Z.land g 3);
  f ← at_ row (Z.land address 7);
  Some (f address * 2 - 1).

Definition rotation_rot (address : Z) : option Z :=
  enabled0 ← rot_enabled address group15;
  d0 ← rot_group address group15;
  let rot := enabled0 * d0 * 9 in
  e1 ← rot_enabled address group14;
  d1 ← rot_group address group14;
  let rot := rot + Z.lxor enabled0 e1 * d1 * 1 in
  e2 ← rot_enabled address group13;
  d2 ← rot_group address group13;
  let rot := rot + Z.lxor enabled0 e2 * d2 * 2 in
  e3 ← rot_enabled address group12;
  d3 ← rot_group address group12;
  let rot := rot + Z.lxor enabled0 e3 * d3 * 4 in
  Some rot.

Definition rotation (address : Z) : option Z :=
  rot ← rotation_rot address;
  Some (Z.land (rot + rotation_rot2 address) 0xf).

Definition rol (num shift : Z) : option Z :=
  r ← shl num shift;
  l ← shr num (16 - shift);
  Some (to_u16 (Z.lor (to_u16 r) (to_u16 l))).

Definition deobfuscate (cipherword word_address : Z) : option Z :=
  shift ← rotation word_address;
  aux ← rol cipherword shift;
  Some (to_u16 (BITSWAP16 aux 10 9 8 7 0 15 6 5 14 13 4 3 12 11 2 1)).

Definition decrypt_step (key : list Z) (word_address i aux : Z) : option Z :=
  k ← at_ key (Z.land word_address 0xff);
  b ← BIT k i;
  if truthy b then
    t ← at_ triggers i;
    if Z.land (Z.shiftr word_address 8) (fst t) =? snd t
    then m ← shl 1 i; Some (Z.lxor aux m)
    else Some aux
  else Some aux.

Fixpoint decrypt_from (key : list Z) (word_address i : Z) (n : nat) (aux : Z)
    : option Z :=
  match n with
  | O => Some aux
  | S n' =>
      aux' ← decrypt_step key word_address i aux;
      decrypt_from key word_address (i + 1) n' aux'
  end.

Definition decrypt (key : list Z) (cipherword word_address : Z) : option Z :=
  aux ← deobfuscate cipherword word_address;
  aux ← decrypt_from key word_address 0 16 aux;
  Some (to_u16 (Z.lxor aux 0x1a3a)).

End Partial.

(** ** The keys of the other titles (lines 273-526) *)

(** [m312cn_key] (lines 273-306). *)
Definition m312cn_key : list Z :=
  [
    0x1102; 0x1103; 0x1000; 0xb101; 0x2100; 0x2802; 0xa000; 0x0901;
    0x000a; 0x8101; 0xa000; 0x2909; 0x000e; 0x2004; 0x210c; 0x2909;
    0x8000; 0x0903; 0x0100; 0x8901; 0x0100; 0x8814; 0x8110; 0x0810;
    0x0002; 0x9010; 0x9110; 0x8000; 0x000a; 0x0115; 0x0108; 0x8919;
    0xb000; 0x8022; 0x2000; 0xa000; 0x0024; 0xa101; 0x0020; 0x0121;
    0x0020; 0xb80a; 0x0128; 0x9828; 0x802e; 0x882a; 0x8020; 0xa90d;
    0x9130; 0x8802; 0x8000; 0x9111; 0x0102; 0x0935; 0x8110; 0x0830;
    0x002a; 0x1919; 0x9130; 0x8808; 0x0110; 0x0030; 0x811c; 0x8919;
    0x1000; 0x6141; 0x0000; 0xd941; 0x0104; 0x0006; 0x4140; 0xa804;
    0x810a; 0x890b; 0x8100; 0xb000; 0x8008; 0xc040; 0x2004; 0x6040;
    0x5150; 0x4943; 0x1010; 0xd151; 0x4040; 0x8111; 0x4044; 0x4945;
    0x9012; 0xd959; 0x9118; 0x0000; 0x8116; 0x494b; 0x801c; 0x0010;
    0xd162; 0x0121; 0x3000; 0x4060; 0x0124; 0x8826; 0xa100; 0xc064;
    0xa000; 0xe040; 0xb100; 0x7040; 0xe040; 0x2006; 0x2004; 0x694d;
    0x1032; 0x0901; 0x4160; 0xc961; 0x4174; 0x8022; 0x8120; 0x4850;
    0x1110; 0x8121; 0x1110; 0x9838; 0xc156; 0x4171; 0x0020; 0x883c;
    0xb082; 0xa183; 0x9080; 0x1101; 0x2104; 0x0103; 0xa080; 0xa181;
    0x300a; 0x2000; 0x9180; 0x1000; 0x808e; 0x8187; 0x0100; 0x8185;
    0x9190; 0x9090; 0x8080; 0x0901; 0x0002; 0x0002; 0x0014; 0x8884;
    0x9198; 0x9193; 0x9190; 0x8888; 0x0006; 0x8888; 0x8180; 0x090d;
    0x1020; 0x3101; 0x1020; 0x1820; 0x0024; 0x2907; 0xa080; 0xa181;
    0xb082; 0x0828; 0x0128; 0x80a0; 0x210a; 0x290d; 0x0128; 0x2000;
    0x9190; 0x88a0; 0x0100; 0x8880; 0x80a6; 0x0820; 0x0000; 0x81a1;
    0x80aa; 0x989a; 0x90b0; 0x1010; 0x80a0; 0x8181; 0x8094; 0x0024;
    0x5142; 0x3101; 0x8080; 0xa880; 0x4046; 0xe8c2; 0x0000; 0x6145;
    0x714a; 0x280a; 0x5040; 0x0909; 0x614a; 0x4145; 0x2004; 0xa88c;
    0x4040; 0x1812; 0xd0d0; 0x9191; 0x4140; 0x8195; 0x8180; 0x4155;
    0x4140; 0x191b; 0x0000; 0x8181; 0xc0dc; 0x091b; 0x0118; 0x0111;
    0x5060; 0x1123; 0xe0c0; 0x7840; 0x80a0; 0x4963; 0x2000; 0xc8e4;
    0x80aa; 0x3000; 0xe0c0; 0x1121; 0x6046; 0xa88a; 0x4164; 0x0929;
    0x9092; 0x4961; 0xc0c0; 0x8181; 0x4074; 0x88a4; 0x0110; 0x0810;
    0xc0e2; 0xc0c0; 0x0028; 0x9191; 0x80b2; 0x0020; 0x4040; 0x80b0 ].

(** [cjddzsp_key] (lines 308-341). *)
Definition cjddzsp_key : list Z :=
  [
    0x0142; 0x3903; 0xb0c0; 0x0040; 0x8006; 0xa145; 0x2004; 0x0141;
    0x21c0; 0xa1c1; 0x0048; 0x8141; 0x8182; 0x884a; 0x2184; 0x0040;
    0x8102; 0x98d2; 0x8180; 0x8941; 0x80d2; 0x0151; 0x01c0; 0x8901;
    0x1090; 0x98d8; 0x9010; 0x0808; 0x0148; 0x095f; 0x804c; 0x090d;
    0x9122; 0xa9c3; 0xa180; 0xb101; 0x00e4; 0x2000; 0x81e4; 0x8921;
    0x2188; 0x89a9; 0x0128; 0x9020; 0x2042; 0xa002; 0x016c; 0x8121;
    0x01e2; 0x9991; 0x8040; 0x9810; 0x0190; 0x0925; 0x01a4; 0x88c4;
    0x0148; 0x9193; 0x91d8; 0x19d9; 0x801a; 0x8919; 0x8120; 0x81c1;
    0x20c2; 0xf0c2; 0xd100; 0x28c0; 0xe0c4; 0xe880; 0xa080; 0x6985;
    0xe100; 0x9042; 0xa1c8; 0x18c8; 0x6146; 0x80c2; 0x604c; 0x09cd;
    0x8180; 0x4002; 0x0000; 0x4880; 0x4100; 0x00c2; 0x8040; 0xc8d4;
    0x5152; 0x5113; 0xd1d8; 0x1090; 0xc19a; 0x4191; 0x80d8; 0xc0c0;
    0xc0e0; 0x6901; 0xd060; 0x00a0; 0x0062; 0x81a3; 0x6004; 0xe1c1;
    0x6042; 0x496b; 0x40e0; 0x78c8; 0xe188; 0xe0c4; 0x40a8; 0x81a5;
    0x1070; 0x9913; 0x91d0; 0x0080; 0x4172; 0x48f6; 0x8120; 0x8961;
    0x51b8; 0xc060; 0x9058; 0xd939; 0x41d2; 0xc9ff; 0x8188; 0xc80c;
    0x81c2; 0x1802; 0xb040; 0x2840; 0x2006; 0x80c2; 0x8184; 0xa1c1;
    0x10c8; 0x30c2; 0x3040; 0x91c1; 0x810c; 0xa1c1; 0x2180; 0x81c1;
    0x0100; 0x18d0; 0x1190; 0x80c0; 0x8046; 0x0941; 0x8154; 0x0111;
    0x0080; 0x8042; 0x1118; 0x0101; 0x004a; 0x89db; 0x0040; 0x8185;
    0x91a2; 0xb143; 0x11a0; 0x2000; 0x01e6; 0x0824; 0x21c4; 0xa181;
    0x2180; 0xb002; 0x90a0; 0xb181; 0xa1c4; 0x0020; 0xa0c0; 0x2105;
    0x01c2; 0x0183; 0x0040; 0x0000; 0x8132; 0x8185; 0x01b4; 0x8975;
    0x91f2; 0x8022; 0x9058; 0x18d8; 0x0128; 0x889e; 0x808c; 0x00f4;
    0x11c0; 0xe840; 0x1140; 0x6981; 0x41c4; 0x00c6; 0x60c4; 0x6884;
    0xa0c8; 0x3143; 0x7180; 0x00c0; 0xa188; 0xc909; 0x4140; 0xa84c;
    0x51d2; 0x0842; 0x8080; 0x9151; 0x81c0; 0x4084; 0x0144; 0x8915;
    0x111a; 0x4103; 0x8000; 0x48c8; 0x01de; 0x00c0; 0xc004; 0xc044;
    0xb100; 0xf983; 0x5060; 0x61c1; 0xe180; 0x2880; 0xe080; 0x8925;
    0x90aa; 0xf8ca; 0xe148; 0x3989; 0x6080; 0x8024; 0x6184; 0x61c5;
    0xc0a0; 0x0020; 0x5190; 0x9111; 0x8180; 0x01b3; 0xc0e4; 0xc191;
    0x4082; 0xd9d9; 0x5110; 0x4000; 0xc164; 0x41c7; 0xc050; 0xc9bd ].

(** [cjdh2_key] (lines 343-376). *)
Definition cjdh2_key : list Z :=
  [
    0x1180; 0x2983; 0x8080; 0x3981; 0x2182; 0x2181; 0x2100; 0x2901;
    0x2182; 0x198b; 0xa008; 0x8181; 0x0106; 0xa000; 0x018c; 0x880c;
    0x1110; 0x8101; 0x1190; 0x9890; 0x8090; 0x0812; 0x8014; 0x0111;
    0x909a; 0x8808; 0x8000; 0x0101; 0x811a; 0x8000; 0x8088; 0x8195;
    0x9120; 0x9123; 0x90a0; 0x1020; 0x00a0; 0x0125; 0x8120; 0xa985;
    0x90aa; 0x2808; 0xa180; 0x1828; 0x81a4; 0xa808; 0xa080; 0x00a4;
    0x9032; 0x0820; 0x1110; 0x8101; 0x8034; 0x8103; 0x8100; 0x01a1;
    0x01a2; 0x8002; 0x81a8; 0x1818; 0x0092; 0x8127; 0x8184; 0x8888;
    0xb102; 0xa802; 0x7140; 0xb000; 0x8102; 0x8000; 0x41c4; 0x0181;
    0xc140; 0x390b; 0x40c0; 0x1909; 0xe1c2; 0x68ca; 0x2104; 0xa181;
    0x1092; 0x59d1; 0xd050; 0x9111; 0x0014; 0x48c6; 0x41d4; 0x8185;
    0x414a; 0xd1d3; 0x50d0; 0x51d1; 0x0184; 0x48da; 0x8104; 0x4848;
    0x3182; 0x18a2; 0xf140; 0x68c0; 0x4066; 0x49e1; 0xc0e0; 0xa101;
    0x4060; 0x2888; 0x0020; 0x78c8; 0x6146; 0xa888; 0x8028; 0xc064;
    0x41c0; 0xd8d2; 0xd1f0; 0x9991; 0x41c0; 0x49c3; 0x00a4; 0x4870;
    0x5152; 0xd1f3; 0x1038; 0x59f9; 0x8128; 0x0999; 0x4178; 0x8105;
    0x9100; 0x0183; 0xa000; 0x8000; 0xa002; 0x8000; 0x0100; 0x8084;
    0x3182; 0x1989; 0x1008; 0x1181; 0xa08a; 0xa88a; 0x8100; 0x0000;
    0x0100; 0x1111; 0x0080; 0x8000; 0x0082; 0x8892; 0x8194; 0x8195;
    0x8002; 0x9193; 0x0108; 0x1111; 0x8198; 0x8094; 0x0080; 0x0080;
    0x80a2; 0xb181; 0xb000; 0x81a1; 0xa106; 0xa084; 0x2000; 0x00a0;
    0x9120; 0xb181; 0xb108; 0x1020; 0x00a4; 0x0828; 0x8024; 0x01a5;
    0x0000; 0x0101; 0x0120; 0x1131; 0x81a0; 0x89a3; 0x0010; 0x01b1;
    0x802a; 0x9191; 0x8008; 0x0909; 0x811a; 0x091b; 0x8010; 0x8014;
    0xb180; 0x8981; 0x6140; 0xd8c0; 0x6144; 0x8983; 0xc144; 0x0080;
    0x210a; 0xb888; 0x61c0; 0x8989; 0xa10c; 0x68ca; 0x808c; 0xc044;
    0x41c0; 0x0082; 0x4140; 0x4840; 0xc0d4; 0x41c1; 0x41d4; 0x0080;
    0x1110; 0x8002; 0x41c0; 0xc040; 0x8008; 0x088e; 0x011c; 0x8898;
    0x60c2; 0xd961; 0x1020; 0xc860; 0xe1c2; 0x48e0; 0x40e0; 0x4965;
    0xf1c8; 0x388a; 0x80a0; 0xf040; 0xe0cc; 0x08a8; 0x2000; 0x81a5;
    0xc140; 0x0080; 0x1090; 0x40c0; 0xc142; 0x40e2; 0x8124; 0xc1d1;
    0x517a; 0x41e3; 0xd0d8; 0x49c9; 0xc1e6; 0x891d; 0x4044; 0x0125 ].

(** [kov3_key] (lines 378-411). *)
Definition kov3_key : list Z :=
  [
    0x9100; 0x0202; 0x0200; 0xb101; 0x2306; 0x8004; 0x0104; 0x2b01;
    0x8100; 0x3a0a; 0xa108; 0x2b09; 0x8206; 0x2b0f; 0xa004; 0x2b09;
    0x9110; 0x0b03; 0x8200; 0x1b11; 0x8306; 0x0010; 0x8304; 0x0814;
    0x9018; 0x0909; 0x1318; 0x8b09; 0x800c; 0x8a0e; 0x0310; 0x0a1c;
    0x2202; 0x0020; 0x0220; 0x8b21; 0x0120; 0x0222; 0xa100; 0x8a20;
    0x1322; 0xbb0b; 0x2000; 0xba08; 0x0326; 0x0929; 0xa00c; 0x2105;
    0x8100; 0x8800; 0x0300; 0x0800; 0x8104; 0x8222; 0x0230; 0x0220;
    0x8028; 0x0b2b; 0x9010; 0x1230; 0x8316; 0x8b1f; 0x0018; 0x0004;
    0xc140; 0x3800; 0x5340; 0x8200; 0xe040; 0x2105; 0x8004; 0x4b41;
    0xd148; 0x6343; 0xb100; 0xdb49; 0xe24a; 0x8105; 0xc248; 0x4b4d;
    0x1010; 0x0101; 0x0300; 0xd850; 0x8010; 0x8206; 0x0000; 0x0115;
    0xd050; 0x9010; 0xc340; 0x1818; 0x0004; 0x484c; 0x8110; 0xc949;
    0xe242; 0x0323; 0x1020; 0x5060; 0x8024; 0x0925; 0xa104; 0x2204;
    0xf24a; 0x2303; 0x0120; 0xe040; 0xa202; 0xa909; 0x230c; 0xaa0c;
    0x5252; 0x5070; 0x5270; 0x1210; 0x0306; 0xc155; 0x0314; 0x8224;
    0x0008; 0xc848; 0x8208; 0x1111; 0x0222; 0x090d; 0x424c; 0x881c;
    0x1100; 0xb880; 0x1000; 0x1901; 0x0104; 0xa884; 0x8084; 0x0b01;
    0x3202; 0x9181; 0x9388; 0xa181; 0xa084; 0x280c; 0x818c; 0xaa8c;
    0x8180; 0x0303; 0x9090; 0x9b91; 0x0302; 0x0a16; 0x8384; 0x0004;
    0x8088; 0x8b8b; 0x1318; 0x1311; 0x8198; 0x0a1a; 0x8284; 0x0b1d;
    0x3302; 0x0921; 0xa380; 0x0321; 0x82a6; 0x0020; 0x81a0; 0xa884;
    0x93a2; 0x9bab; 0x2108; 0xb181; 0xa28a; 0x88a8; 0xa288; 0x2204;
    0x1312; 0x88a0; 0x0220; 0x9191; 0x80b4; 0x80a0; 0x82a0; 0x8395;
    0x83aa; 0x1a1a; 0x93b8; 0x9391; 0x819c; 0x8aaa; 0x0300; 0x0220;
    0x5342; 0x9981; 0x0100; 0x3000; 0xa084; 0xc3c3; 0xc3c0; 0x6345;
    0x2302; 0x9888; 0x6148; 0x7040; 0x624a; 0x8383; 0xe0c0; 0xab8d;
    0xc3c2; 0xc0c0; 0xd2d0; 0x0b01; 0x4150; 0x4955; 0x4244; 0xc0c0;
    0x8282; 0x1b1b; 0x8180; 0xc8c8; 0x0306; 0x8387; 0x0318; 0xc2c0;
    0x1120; 0x90a0; 0x5260; 0xd8e0; 0x2306; 0xa383; 0x6044; 0x88a4;
    0x6342; 0x6040; 0x1020; 0x3b09; 0x200c; 0xa387; 0x81a4; 0x082c;
    0x0222; 0x1333; 0xd2d0; 0x0301; 0x0030; 0xc0c4; 0x4174; 0x4a74;
    0x1010; 0x4b6b; 0x1318; 0x5371; 0x023e; 0x0327; 0x0314; 0xc3d5 ].

(** [kov2_key] (lines 413-446). *)
Definition kov2_key : list Z :=
  [
    0x1000; 0x3101; 0x9300; 0x0101; 0xa100; 0x8804; 0x8100; 0x2000;
    0x0100; 0x1101; 0xb208; 0xa101; 0x8100; 0x0b0f; 0x200c; 0x0305;
    0x0000; 0x9b13; 0x8000; 0x9911; 0x0302; 0x8804; 0x8200; 0x8a10;
    0x830a; 0x0a0a; 0x8008; 0x9b19; 0x0110; 0x0808; 0x820c; 0x0204;
    0x2202; 0x8121; 0x3200; 0xb101; 0x8120; 0xa206; 0x0120; 0x0325;
    0xb108; 0x3000; 0xb300; 0x1b29; 0xa20a; 0x8828; 0x2300; 0xa200;
    0x9030; 0x0101; 0x9230; 0x1230; 0x0014; 0x0216; 0x0114; 0x8a24;
    0x0108; 0x1919; 0x9110; 0x1b39; 0x8336; 0x8b2b; 0x830c; 0x8105;
    0x4242; 0xb000; 0xe040; 0x1901; 0xe144; 0x4246; 0x6340; 0xc945;
    0xe24a; 0x6949; 0xe148; 0x3a08; 0xe14c; 0x6a4a; 0x434c; 0xab09;
    0x0302; 0x0800; 0xd250; 0x4b41; 0xc050; 0xca56; 0x0304; 0xcb45;
    0xc342; 0x9a1a; 0x0208; 0xda58; 0x020a; 0xc95d; 0xc158; 0xc250;
    0x2100; 0x4161; 0xa000; 0x8921; 0xc366; 0x2307; 0xe344; 0xeb41;
    0x832a; 0x5969; 0xb208; 0x9321; 0x4160; 0x0b2f; 0x0020; 0x4a6c;
    0x4160; 0x9830; 0x4060; 0x9010; 0x0216; 0x8303; 0x0020; 0x4161;
    0x0222; 0x0a2a; 0xc260; 0xc060; 0x4078; 0x4357; 0xc370; 0xca68;
    0x3000; 0xa282; 0x2100; 0x0a00; 0x2206; 0xaa82; 0x8284; 0x2901;
    0x320a; 0x0303; 0x9388; 0x9381; 0x0000; 0x0000; 0x220c; 0x0808;
    0x9190; 0x1010; 0x8280; 0x0b01; 0x8286; 0x0216; 0x0314; 0x8294;
    0x828a; 0x0101; 0x8180; 0x9898; 0x8386; 0x8181; 0x0204; 0x0305;
    0x3100; 0x2800; 0x1020; 0x80a0; 0x80a4; 0x0b27; 0xa384; 0x2804;
    0x3202; 0x3101; 0x2300; 0x82a0; 0xa084; 0xa084; 0x2000; 0xa080;
    0x1110; 0x99b1; 0x1330; 0x82a0; 0x83b2; 0x0337; 0x8094; 0x8880;
    0x83a2; 0x1b3b; 0x8188; 0x1b39; 0x013c; 0x0333; 0x82b0; 0x0838;
    0x9180; 0xeac2; 0x2000; 0x1301; 0xc0c0; 0x6246; 0x2300; 0xab81;
    0x828a; 0xa989; 0x2308; 0x4b49; 0xe3c6; 0xa185; 0x434c; 0xcbcd;
    0x1010; 0xcbc3; 0xc1c0; 0xdad0; 0x0306; 0xc2d6; 0x4050; 0xcac4;
    0x1118; 0x4343; 0x0300; 0x8989; 0x8080; 0x8094; 0x020c; 0x0a1c;
    0x5060; 0x1222; 0xe2c0; 0x92a0; 0xe2c2; 0x6b47; 0xa180; 0x4264;
    0xf0c8; 0xf8c8; 0xa388; 0xab89; 0x220a; 0x0929; 0xc2e0; 0x4b69;
    0xc1c0; 0x9ab2; 0x81a0; 0x5a70; 0x4164; 0x4353; 0x8390; 0x4161;
    0xd0d0; 0x8383; 0x4260; 0xd1f1; 0x023e; 0x4a5e; 0x0230; 0xcbcd ].

(** [ddpdoj_key] (lines 453-489), by the source more likely than the
    others to still contain errors. *)
Definition ddpdoj_key : list Z :=
  [
    0xb102; 0x8802; 0x0000; 0x9101; 0x2004; 0xa105; 0x0000; 0x8905;
    0x8102; 0x2000; 0x3000; 0x3808; 0x210e; 0xa006; 0x800c; 0xa004;
    0x9110; 0x9911; 0x9010; 0x8800; 0x8006; 0x0901; 0x8114; 0x0115;
    0x1118; 0x1012; 0x0108; 0x8101; 0x000e; 0x8115; 0x0014; 0x0115;
    0x1020; 0x0921; 0xb100; 0xb000; 0x8126; 0x2907; 0x0020; 0xa901;
    0x1128; 0x2000; 0x2000; 0x0929; 0x2100; 0x0123; 0x8028; 0x8929;
    0x1110; 0x8802; 0x1010; 0x9810; 0x8106; 0x0000; 0x8110; 0x8020;
    0x9018; 0x1030; 0x1118; 0x9939; 0x8004; 0x081c; 0x8124; 0x093d;
    0x1102; 0xe141; 0xa000; 0x1901; 0x8102; 0x8901; 0xa004; 0x6141;
    0xe040; 0xa103; 0xf048; 0xc949; 0x8000; 0x090f; 0xe044; 0x880c;
    0xd152; 0xc840; 0x9110; 0xc941; 0x0000; 0x0117; 0x4044; 0xc054;
    0x1010; 0x181a; 0x8000; 0x5959; 0x0002; 0x485c; 0x0114; 0xc151;
    0x5060; 0xc862; 0x1020; 0x7040; 0xc062; 0x6042; 0x8024; 0x2101;
    0xc162; 0x596b; 0xe140; 0x9020; 0xc162; 0x694d; 0x2104; 0xa90d;
    0x1032; 0xd872; 0x5170; 0x1010; 0x4156; 0xc951; 0x4044; 0x4961;
    0x9030; 0xd85a; 0x8020; 0x1939; 0x011e; 0x0012; 0x8000; 0xc151;
    0x3102; 0x9880; 0xa080; 0xb181; 0xa182; 0x8084; 0x0000; 0xa981;
    0x1102; 0x2000; 0x8180; 0x1808; 0x8180; 0x290d; 0xa084; 0x8084;
    0x9092; 0x8981; 0x0100; 0x0901; 0x0004; 0x8884; 0x8094; 0x8991;
    0x0100; 0x989a; 0x1110; 0x0909; 0x8192; 0x889e; 0x0000; 0x898d;
    0xb080; 0x1022; 0xb080; 0x3000; 0x2106; 0x2101; 0x80a4; 0x89a1;
    0x81a2; 0x1022; 0xb088; 0x3101; 0x2002; 0x2107; 0x81a8; 0x0024;
    0x8080; 0x9991; 0x0120; 0x0020; 0x8090; 0x0101; 0x8084; 0x0911;
    0x8082; 0x99b9; 0x9190; 0x1010; 0x81b6; 0x89ab; 0x81ac; 0x8989;
    0xf1c0; 0x3901; 0xa080; 0x7141; 0x0104; 0xa985; 0xe0c4; 0x2800;
    0x310a; 0x280a; 0x7040; 0x1101; 0x210e; 0xe8ca; 0x6040; 0x694d;
    0x9090; 0x8082; 0x8180; 0xd8d0; 0xc1d2; 0x8197; 0x0114; 0x8181;
    0xd0d8; 0xc8c8; 0x0108; 0xc1c1; 0xc1c2; 0x0113; 0x819c; 0xc9cd;
    0x91a0; 0x1121; 0xf0c0; 0x4161; 0xe0c6; 0x2006; 0x4060; 0xa880;
    0x5068; 0x7040; 0x2100; 0x3808; 0x210e; 0x81a3; 0x416c; 0x0121;
    0xd1d0; 0x9193; 0xc1e0; 0xc9c1; 0x0014; 0x0830; 0x4050; 0x4961;
    0x103a; 0xc9e9; 0x1118; 0x1111; 0x404e; 0x8898; 0x0024; 0x0020 ].

(** [kof98umh_key] (lines 493-526), marked WRONG in the source. *)
Definition kof98umh_key : list Z :=
  [
    0x9202; 0x0000; 0x0220; 0x3b01; 0x2004; 0x00a0; 0x0000; 0x0905;
    0x830a; 0x8000; 0x8228; 0xa20a; 0x8206; 0x0000; 0x0020; 0x8808;
    0x9212; 0x0800; 0x0000; 0x0301; 0x0020; 0x0a02; 0x0000; 0x0105;
    0x020a; 0x0000; 0x0000; 0x1111; 0x021a; 0x0121; 0x0000; 0x8111;
    0x8020; 0x0802; 0xb120; 0xb901; 0x8326; 0x0800; 0x0000; 0xa101;
    0x922a; 0x0000; 0x1200; 0x9022; 0x0128; 0x0800; 0x0020; 0xaa0c;
    0x0202; 0x0800; 0x8000; 0x1b31; 0x8024; 0x8804; 0x0000; 0x8111;
    0x8120; 0x8000; 0x0080; 0x9030; 0x032e; 0x083c; 0x0000; 0x893d;
    0xe342; 0x0800; 0x0120; 0x7b41; 0xa000; 0x00a0; 0x0000; 0x4141;
    0x130a; 0x0000; 0x8320; 0xdb49; 0x010c; 0x0000; 0x0020; 0xc84c;
    0x0202; 0x0000; 0x0000; 0x1911; 0x0014; 0x0b13; 0x0000; 0x8a10;
    0x434a; 0x0020; 0x0000; 0x5250; 0xc050; 0x0034; 0x0000; 0xc355;
    0x7242; 0x0002; 0x9000; 0xcb61; 0x8120; 0x0020; 0x0000; 0x0921;
    0x4068; 0x0000; 0x6068; 0x922a; 0xc36e; 0x0020; 0x0020; 0x280c;
    0x0322; 0x0800; 0x8020; 0x9810; 0xc060; 0x4b73; 0x0000; 0x4870;
    0xd050; 0x0020; 0x0000; 0x1b39; 0xc26e; 0x0121; 0x0000; 0x4375;
    0x2202; 0x0000; 0x0120; 0xb0a0; 0x2202; 0x2020; 0x2000; 0x8280;
    0x838a; 0x0080; 0x81a0; 0xb082; 0x2004; 0x0000; 0x0020; 0xa385;
    0x8080; 0x0080; 0x0000; 0x9191; 0x80a0; 0x0004; 0x0000; 0x8280;
    0x9098; 0x0020; 0x0080; 0x0808; 0x030e; 0x0337; 0x0000; 0x8290;
    0xb382; 0x0002; 0x0000; 0x1220; 0x2004; 0x0000; 0x0080; 0x2301;
    0x81a8; 0x0000; 0x0228; 0x1121; 0x230a; 0x2000; 0x0000; 0x80a0;
    0x1232; 0x0020; 0x0020; 0x9b91; 0x0114; 0x8185; 0x0080; 0x0010;
    0x82aa; 0x0000; 0x0080; 0x98b8; 0x0226; 0x0a2e; 0x0000; 0x80b4;
    0x1100; 0x0000; 0xa1a0; 0xf2e0; 0x6144; 0x0020; 0x0000; 0x4145;
    0x1108; 0x0000; 0xb280; 0x9a8a; 0xa084; 0x0000; 0x0020; 0x4044;
    0x9190; 0x0000; 0x0000; 0x0a00; 0x4266; 0x0814; 0x0080; 0x8b91;
    0x434a; 0x00a0; 0x0080; 0x0808; 0x4352; 0x83a3; 0x0000; 0xc3c5;
    0x3302; 0x0002; 0xd1c0; 0xf3c1; 0xa080; 0x00a0; 0x0000; 0x0b25;
    0x0128; 0x0000; 0xb288; 0x3b09; 0x200c; 0x2000; 0x0020; 0xeac8;
    0xd1f0; 0x0000; 0x0020; 0x83a1; 0xc3f2; 0xc8d0; 0x0000; 0x8b91;
    0x5272; 0x0080; 0x0000; 0x0b29; 0x4376; 0x0828; 0x0000; 0x8ab8 ].

(** The eight keys of the file, in the order of their definition. *)
Definition game_keys : list (list Z) :=
  [orleg2_key; m312cn_key; cjddzsp_key; cjdh2_key;
   kov3_key; kov2_key; ddpdoj_key; kof98umh_key].

(** A well-formed key: 256 values of 16 bits. *)
Definition key_ok (key : list Z) : Prop :=
  length key = 256%nat /\ Forall (fun v => 0 <= v < 2 ^ 16) key.

(** A function that returns a truth value, 0 or 1. *)
Definition returns_bit (f : Z -> Z) : Prop :=
  forall x : Z, f x = 0 \/ f x = 1.

(** Two addresses that agree on the bits 0..23, the word address the
    scheme is designed for. *)
Definition agree_low_24 (a a' : Z) : Prop :=
  forall n : Z, 0 <= n < 24 -> Z.testbit a n = Z.testbit a' n.

(** A region of 2^31 bytes, all zero: the smallest size that the local
    [int size] of [decrypter_rom] does not hold. *)
Definition region_2_31 : memory_region := repeat x00 (Z.to_nat (2 ^ 31)).
(** ** Bit-level facts about the machine operations *)

Section Bits.

Lemma BIT_b2z x n : 0 <= n -> BIT x n = Z.b2z (Z.testbit x n).
Proof.
  intros Hn. unfold BIT.
  change 1 with (Z.ones 1). rewrite Z.land_ones by lia.
  change (2 ^ 1) with 2. rewrite <- Z.bit0_mod.
  rewrite Z.shiftr_spec by lia. reflexivity.
Qed.

Lemma truthy_b2z b : truthy (Z.b2z b) = b.
Proof. destruct b; reflexivity. Qed.

Lemma truthy_BIT x n : 0 <= n -> truthy (BIT x n) = Z.testbit x n.
Proof. intros Hn. rewrite BIT_b2z by assumption. apply truthy_b2z. Qed.

Lemma to_u16_range x : 0 <= to_u16 x < 2 ^ 16.
Proof. unfold to_u16. apply Z.mod_pos_bound. lia. Qed.

Lemma to_u16_small x : 0 <= x < 2 ^ 16 -> to_u16 x = x.
Proof. intros H. unfold to_u16. apply Z.mod_small. assumption. Qed.

Lemma to_u16_testbit x i :
  Z.testbit (to_u16 x) i = (i <? 16) && Z.testbit x i.
Proof.
  unfold to_u16. destruct (Z.ltb_spec i 16) as [Hlt | Hge].
  - destruct (Z.neg_nonneg_cases i) as [Hneg | Hpos].
    + rewrite !Z.testbit_neg_r by assumption. reflexivity.
    + rewrite Z.mod_pow2_bits_low by lia. reflexivity.
  - rewrite Z.mod_pow2_bits_high by lia. reflexivity.
Qed.

(** A value below 2^16 has no bit set from position 16 on. *)
Lemma u16_high_bits x i : 0 <= x < 2 ^ 16 -> 16 <= i -> Z.testbit x i = false.
Proof.
  intros Hx Hi. rewrite <- (Z.mod_small x (2 ^ 16)) by assumption.
  apply Z.mod_pow2_bits_high. lia.
Qed.

(** Two 16-bit values with the same sixteen low bits are equal. *)
Lemma u16_eq x y :
  0 <= x < 2 ^ 16 -> 0 <= y < 2 ^ 16 ->
  (forall i, 0 <= i < 16 -> Z.testbit x i = Z.testbit y i) -> x = y.
Proof.
  intros Hx Hy Hbits. apply Z.bits_inj'. intros i Hi.
  destruct (Z.lt_ge_cases i 16).
  - apply Hbits. lia.
  - rewrite !u16_high_bits by (assumption || lia). reflexivity.
Qed.

Lemma lxor_u16 x y : 0 <= x < 2 ^ 16 -> 0 <= y < 2 ^ 16 -> 0 <= Z.lxor x y < 2 ^ 16.
Proof.
  intros Hx Hy. split.
  - apply Z.lxor_nonneg. lia.
  - destruct (Z.eq_dec (Z.lxor x y) 0) as [-> | Hnz]; [lia |].
    assert (Hnn : 0 <= Z.lxor x y) by (apply Z.lxor_nonneg; lia).
    apply Z.log2_lt_pow2; [lia |].
    pose proof (Z.log2_lxor x y ltac:(lia) ltac:(lia)) as Hlog.
    assert (Z.log2 x < 16).
    { destruct (Z.eq_dec x 0) as [-> | ?]; [reflexivity |].
      apply Z.log2_lt_pow2; lia. }
    assert (Z.log2 y < 16).
    { destruct (Z.eq_dec y 0) as [-> | ?]; [reflexivity |].
      apply Z.log2_lt_pow2; lia. }
    lia.
Qed.

End Bits.

(** ** The rotation amount *)

Section Rotation.

Lemma land_0xf_range x : 0 <= Z.land x 0xf <= 15.
Proof.
  assert (H : Z.land x 0xf = x mod 16) by (apply (Z.land_ones x 4); lia).
  rewrite H. pose proof (Z.mod_pos_bound x 16 ltac:(lia)). lia.
Qed.

Lemma rotation_range address : 0 <= rotation address <= 15.
Proof. unfold rotation. apply land_0xf_range. Qed.

Lemma rotation_rot2_formula address :
  rotation_rot2 address =
  rot2_formula (Z.testbit address 0) (Z.testbit address 1)
               (Z.testbit address 3) (Z.testbit address 4)
               (Z.testbit address 7).
Proof.
  unfold rotation_rot2, rot2_formula.
  rewrite !BIT_b2z by lia.
  destruct (Z.testbit address 0), (Z.testbit address 1),
    (Z.testbit address 3), (Z.testbit address 4), (Z.testbit address 7);
    reflexivity.
Qed.

Lemma testbit_land_mask address m i :
  0 <= i -> Z.testbit m i = true ->
  Z.testbit (Z.land address m) i = Z.testbit address i.
Proof. intros Hi Hm. rewrite Z.land_spec, Hm. apply andb_true_r. Qed.

End Rotation.

(** Two addresses traced by hand through [rotation]: at 0x800008 only
    the block contribution acts (-4, masked to 12); at 0x1234567 the
    groups of weight 1 and 4 rotate forwards and the block adds 4. *)
Example rotation_0x800008 : rotation 0x800008 = 12.
Proof. reflexivity. Qed.

Example rotation_0x1234567 :
  rotation_rot 0x1234567 = 5 /\ rotation_rot2 0x1234567 = 4
  /\ rotation 0x1234567 = 9.
Proof. repeat split. Qed.

(** C3.  For every address the rotation amount lies in 0..15, although
    the sum of the signed group and block contributions can be negative
    before it is masked with [0xf] (it is -1 at address 0x10, where the
    rotation is 15). *)
Theorem rotation_in_0_15 :
  (forall address : Z, 0 <= rotation address <= 15) /\
  rotation_rot 0x10 + rotation_rot2 0x10 = -1 /\ rotation 0x10 = 15.
Proof.
  split; [exact rotation_range |].
  split; vm_compute; reflexivity.
Qed.

(** C5.  The block contribution [rot2] is the stated formula of address
    bits 0, 1, 3, 4 and 7, and so does not change when every other
    address bit is cleared. *)
Theorem rot2_block_formula (address : Z) :
  rotation_rot2 address =
    rot2_formula (Z.testbit address 0) (Z.testbit address 1)
                 (Z.testbit address 3) (Z.testbit address 4)
                 (Z.testbit address 7)
  /\ rotation_rot2 address = rotation_rot2 (Z.land address 0x9b).
Proof.
  split; [apply rotation_rot2_formula |].
  rewrite (rotation_rot2_formula address),
    (rotation_rot2_formula (Z.land address 0x9b)).
  rewrite !testbit_land_mask by (lia || reflexivity). reflexivity.
Qed.

(** ** The key-dependent XOR *)

(** Case analysis on every integer comparison of the goal. *)
Ltac cmp_cases :=
  repeat match goal with
    | |- context [?a <=? ?b] => destruct (Z.leb_spec a b)
    | |- context [?a <? ?b] => destruct (Z.ltb_spec a b)
    | |- context [?a =? ?b] => destruct (Z.eqb_spec a b)
    end.

Section KeyXor.

Variable key : list Z.
Variable word_address : Z.

(** One iteration toggles bit [i] alone, and only when its XOR fires. *)
Lemma decrypt_step_testbit i aux b :
  0 <= i -> 0 <= b ->
  Z.testbit (decrypt_step key word_address i aux) b =
  xorb (Z.testbit aux b) ((i =? b) && fires key word_address i).
Proof.
  intros Hi Hb. unfold decrypt_step, fires.
  rewrite truthy_BIT by assumption.
  destruct (Z.testbit (sub 0 key (Z.land word_address 255)) i); simpl.
  - destruct (_ =? _); simpl.
    + rewrite Z.lxor_spec, Z.shiftl_1_l, Z.pow2_bits_eqb by assumption.
      rewrite andb_true_r. reflexivity.
    + rewrite andb_false_r, xorb_false_r. reflexivity.
  - rewrite andb_false_r, xorb_false_r. reflexivity.
Qed.

Lemma decrypt_from_testbit n : forall i aux b,
  0 <= i -> 0 <= b ->
  Z.testbit (decrypt_from key word_address i n aux) b =
  xorb (Z.testbit aux b)
       ((i <=? b) && (b <? i + Z.of_nat n) && fires key word_address b).
Proof.
  induction n as [| n IH]; intros i aux b Hi Hb.
  - cbn [decrypt_from]. cmp_cases; cbn [andb]; try lia.
    all: rewrite xorb_false_r; reflexivity.
  - cbn [decrypt_from]. rewrite IH by lia.
    rewrite decrypt_step_testbit by assumption.
    cmp_cases; try lia; subst; cbn [andb];
      rewrite ?xorb_false_r; reflexivity.
Qed.

(** With a zero key entry for the lowest address byte no iteration
    changes [aux]. *)
Lemma decrypt_from_zero_key n : forall i aux,
  sub 0 key (Z.land word_address 0xff) = 0 ->
  decrypt_from key word_address i n aux = aux.
Proof.
  induction n as [| n IH]; intros i aux Hk; [reflexivity |].
  simpl decrypt_from. rewrite IH by assumption.
  unfold decrypt_step, BIT. rewrite Hk, Z.shiftr_0_l. reflexivity.
Qed.

Lemma decrypt_from_range n : forall i aux,
  0 <= i -> Z.of_nat n + i <= 16 -> 0 <= aux < 2 ^ 16 ->
  0 <= decrypt_from key word_address i n aux < 2 ^ 16.
Proof.
  induction n as [| n IH]; intros i aux Hi Hn Haux; [assumption |].
  simpl decrypt_from. apply IH; [lia | lia |].
  unfold decrypt_step.
  destruct (truthy _); [| assumption].
  destruct (_ =? _); [| assumption].
  apply lxor_u16; [assumption |].
  rewrite Z.shiftl_1_l. split; [apply Z.pow_nonneg; lia |].
  apply Z.pow_lt_mono_r; lia.
Qed.

End KeyXor.

Lemma deobfuscate_range cipherword word_address :
  0 <= deobfuscate cipherword word_address < 2 ^ 16.
Proof. unfold deobfuscate. apply to_u16_range. Qed.

Lemma decrypt_range key cipherword word_address :
  0 <= decrypt key cipherword word_address < 2 ^ 16.
Proof. unfold decrypt. apply to_u16_range. Qed.

(** C1.  For every cipher word, word address and key, every bit [i] in
    0..15 of [decrypt] is the bit of [deobfuscate], toggled exactly when
    bit [i] of the key entry of the lowest address byte is set and the
    highest address bits match trigger [i], then XORed with bit [i] of
    0x1a3a whatever the key; the result has no further bit, and is the
    outcome of the key-dependent loop XORed with 0x1a3a. *)
Theorem decrypt_bits (key : list Z) (cipherword word_address : Z) :
  (forall i, 0 <= i < 16 ->
     Z.testbit (decrypt key cipherword word_address) i =
     xorb (xorb (Z.testbit (deobfuscate cipherword word_address) i)
                (fires key word_address i))
          (Z.testbit 0x1a3a i))
  /\ 0 <= decrypt key cipherword word_address < 2 ^ 16
  /\ decrypt key cipherword word_address =
     Z.lxor (decrypt_from key word_address 0 16
               (deobfuscate cipherword word_address)) 0x1a3a.
Proof.
  split; [| split].
  - intros i Hi. unfold decrypt.
    rewrite to_u16_testbit, Z.lxor_spec, decrypt_from_testbit by lia.
    cmp_cases; try lia. reflexivity.
  - apply decrypt_range.
  - unfold decrypt. apply to_u16_small. apply lxor_u16; [| lia].
    apply decrypt_from_range; [lia | lia | apply deobfuscate_range].
Qed.

Lemma decrypt_bits_witness :
  Z.testbit (decrypt orleg2_key 0x1234 0xabcdef) 3 =
  xorb (xorb (Z.testbit (deobfuscate 0x1234 0xabcdef) 3)
             (fires orleg2_key 0xabcdef 3))
       (Z.testbit 0x1a3a 3).
Proof.
  apply (proj1 (decrypt_bits orleg2_key 0x1234 0xabcdef) 3). lia.
Defined.

(** C6.  Where the key entry of the lowest address byte is zero,
    [decrypt] is [deobfuscate] XORed with 0x1a3a; at address 0 the
    rotation is 0, and a key whose entry 0 is zero decrypts 0 to 0x1a3a
    and 0xffff to 0xe5c5 there. *)
Theorem decrypt_zero_key :
  (forall (key : list Z) (w address : Z),
     sub 0 key (Z.land address 0xff) = 0 ->
     decrypt key w address = Z.lxor (deobfuscate w address) 0x1a3a)
  /\ rotation 0 = 0
  /\ (forall key : list Z,
        sub 0 key 0 = 0 ->
        decrypt key 0 0 = 0x1a3a /\ decrypt key 0xffff 0 = 0xe5c5).
Proof.
  assert (Hzero : forall key w address,
             sub 0 key (Z.land address 0xff) = 0 ->
             decrypt key w address = Z.lxor (deobfuscate w address) 0x1a3a).
  { intros key w address Hk. unfold decrypt.
    rewrite decrypt_from_zero_key by assumption.
    apply to_u16_small. apply lxor_u16; [apply deobfuscate_range | lia]. }
  split; [exact Hzero |]. split; [reflexivity |].
  intros key Hk. rewrite !Hzero by exact Hk. split; reflexivity.
Qed.

Lemma decrypt_zero_key_witness :
  decrypt orleg2_key 0x1234 0xabcd43
    = Z.lxor (deobfuscate 0x1234 0xabcd43) 0x1a3a
  /\ decrypt (0 :: repeat 0xffff 255) 0xffff 0 = 0xe5c5.
Proof.
  destruct decrypt_zero_key as [Hzero [_ Hconcrete]]. split.
  - apply (Hzero orleg2_key 0x1234 0xabcd43). reflexivity.
  - apply (Hconcrete (0 :: repeat 0xffff 255)). reflexivity.
Defined.

(** ** The rotation of a word and the fixed bit permutation *)

Section Obfuscation.

(** A bit moved to position [k]. *)
Lemma shifted_BIT_testbit val b k i :
  0 <= b -> 0 <= k -> 0 <= i ->
  Z.testbit (Z.shiftl (BIT val b) k) i = (i =? k) && Z.testbit val b.
Proof.
  intros Hb Hk Hi. rewrite Z.shiftl_spec, BIT_b2z by assumption.
  destruct (Z.eqb_spec i k) as [-> | Hne].
  - rewrite Z.sub_diag, Z.b2z_bit0. reflexivity.
  - destruct (Z.lt_ge_cases i k).
    + apply Z.testbit_neg_r. lia.
    + destruct (Z.testbit val b); cbn [Z.b2z andb].
      * apply (Z.pow2_bits_false 0). lia.
      * apply Z.bits_0.
Qed.

Lemma nibble_cases i :
  0 <= i < 16 ->
  i = 0 \/ i = 1 \/ i = 2 \/ i = 3 \/ i = 4 \/ i = 5 \/ i = 6 \/ i = 7 \/
  i = 8 \/ i = 9 \/ i = 10 \/ i = 11 \/ i = 12 \/ i = 13 \/ i = 14 \/ i = 15.
Proof. lia. Qed.

(** Output bit [i] of [BITSWAP16] is the input bit named by the
    argument for position [i]. *)
Lemma BITSWAP16_testbit val b15 b14 b13 b12 b11 b10 b9 b8
      b7 b6 b5 b4 b3 b2 b1 b0 i :
  Forall (Z.le 0) [b0; b1; b2; b3; b4; b5; b6; b7;
                   b8; b9; b10; b11; b12; b13; b14; b15] ->
  0 <= i < 16 ->
  Z.testbit (BITSWAP16 val b15 b14 b13 b12 b11 b10 b9 b8
                       b7 b6 b5 b4 b3 b2 b1 b0) i =
  Z.testbit val (sub 0 [b0; b1; b2; b3; b4; b5; b6; b7;
                        b8; b9; b10; b11; b12; b13; b14; b15] i).
Proof.
  intros Hpos Hi.
  repeat match goal with
         | H : Forall _ (_ :: _) |- _ => apply Forall_cons_1 in H; destruct H
         end.
  unfold BITSWAP16.
  rewrite !Z.lor_spec, !shifted_BIT_testbit by lia.
  destruct (nibble_cases i Hi) as
    [-> | [-> | [-> | [-> | [-> | [-> | [-> | [-> |
    [-> | [-> | [-> | [-> | [-> | [-> | [-> | ->]]]]]]]]]]]]]]];
    repeat match goal with
           | |- context [Z.eqb ?a ?b] =>
               let c := eval vm_compute in (Z.eqb a b) in
               change (Z.eqb a b) with c
           end;
    cbn [andb orb]; rewrite ?orb_false_r; reflexivity.
Qed.

Lemma BITSWAP16_range val b15 b14 b13 b12 b11 b10 b9 b8
      b7 b6 b5 b4 b3 b2 b1 b0 :
  Forall (Z.le 0) [b0; b1; b2; b3; b4; b5; b6; b7;
                   b8; b9; b10; b11; b12; b13; b14; b15] ->
  to_u16 (BITSWAP16 val b15 b14 b13 b12 b11 b10 b9 b8
                    b7 b6 b5 b4 b3 b2 b1 b0)
  = BITSWAP16 val b15 b14 b13 b12 b11 b10 b9 b8 b7 b6 b5 b4 b3 b2 b1 b0.
Proof.
  intros Hpos. apply Z.bits_inj'. intros i Hi.
  rewrite to_u16_testbit. destruct (Z.ltb_spec i 16) as [Hlt | Hge];
    [reflexivity |].
  repeat match goal with
         | H : Forall _ (_ :: _) |- _ => apply Forall_cons_1 in H; destruct H
         end.
  unfold BITSWAP16.
  rewrite !Z.lor_spec, !shifted_BIT_testbit by lia.
  repeat match goal with
         | |- context [Z.eqb i ?b] =>
             destruct (Z.eqb_spec i b); [lia |]
         end.
  reflexivity.
Qed.

(** Bit [i] of the rotated word is bit [i - shift] of the word, the
    positions taken modulo 16. *)
Lemma rol_testbit num shift i :
  0 <= num < 2 ^ 16 -> 0 <= shift <= 15 -> 0 <= i < 16 ->
  Z.testbit (rol num shift) i = Z.testbit num ((i - shift) mod 16).
Proof.
  intros Hnum Hs Hi. unfold rol.
  rewrite to_u16_testbit, Z.lor_spec, !to_u16_testbit.
  rewrite Z.shiftl_spec, Z.shiftr_spec by lia.
  replace (i <? 16) with true by (symmetry; apply Z.ltb_lt; lia).
  cbn [andb].
  destruct (Z.lt_ge_cases i shift) as [Hlt | Hge].
  - rewrite (Z.testbit_neg_r num (i - shift)) by lia. cbn [orb].
    f_equal. Z.div_mod_to_equations. lia.
  - rewrite (u16_high_bits num (i + (16 - shift))) by (assumption || lia).
    rewrite orb_false_r. f_equal. Z.div_mod_to_equations. lia.
Qed.

Lemma ror_testbit num shift i :
  0 <= num < 2 ^ 16 -> 0 <= shift <= 15 -> 0 <= i < 16 ->
  Z.testbit (ror num shift) i = Z.testbit num ((i + shift) mod 16).
Proof.
  intros Hnum Hs Hi. unfold ror.
  rewrite to_u16_testbit, Z.lor_spec, !to_u16_testbit.
  rewrite Z.shiftl_spec, Z.shiftr_spec by lia.
  replace (i <? 16) with true by (symmetry; apply Z.ltb_lt; lia).
  cbn [andb].
  destruct (Z.lt_ge_cases (i + shift) 16) as [Hlt | Hge].
  - rewrite (Z.testbit_neg_r num (i - (16 - shift))) by lia.
    rewrite orb_false_r. f_equal. Z.div_mod_to_equations. lia.
  - rewrite (u16_high_bits num (i + shift)) by (assumption || lia).
    cbn [orb]. f_equal. Z.div_mod_to_equations. lia.
Qed.

Lemma swap_source_range i : 0 <= i < 16 -> 0 <= swap_source i < 16.
Proof.
  intros Hi. destruct (nibble_cases i Hi) as
    [-> | [-> | [-> | [-> | [-> | [-> | [-> | [-> |
    [-> | [-> | [-> | [-> | [-> | [-> | [-> | ->]]]]]]]]]]]]]]];
    vm_compute; split; congruence.
Qed.

Lemma unswap_source_range i : 0 <= i < 16 -> 0 <= unswap_source i < 16.
Proof.
  intros Hi. destruct (nibble_cases i Hi) as
    [-> | [-> | [-> | [-> | [-> | [-> | [-> | [-> |
    [-> | [-> | [-> | [-> | [-> | [-> | [-> | ->]]]]]]]]]]]]]]];
    vm_compute; split; congruence.
Qed.

(** The two wirings undo each other. *)
Lemma swap_unswap i : 0 <= i < 16 -> swap_source (unswap_source i) = i.
Proof.
  intros Hi. destruct (nibble_cases i Hi) as
    [-> | [-> | [-> | [-> | [-> | [-> | [-> | [-> |
    [-> | [-> | [-> | [-> | [-> | [-> | [-> | ->]]]]]]]]]]]]]]];
    reflexivity.
Qed.

Lemma unswap_swap i : 0 <= i < 16 -> unswap_source (swap_source i) = i.
Proof.
  intros Hi. destruct (nibble_cases i Hi) as
    [-> | [-> | [-> | [-> | [-> | [-> | [-> | [-> |
    [-> | [-> | [-> | [-> | [-> | [-> | [-> | ->]]]]]]]]]]]]]]];
    reflexivity.
Qed.

Lemma positions_nonneg :
  Forall (Z.le 0) [1; 2; 11; 12; 3; 4; 13; 14; 5; 6; 15; 0; 7; 8; 9; 10]
  /\ Forall (Z.le 0) [11; 0; 1; 4; 5; 8; 9; 12; 13; 14; 15; 2; 3; 6; 7; 10].
Proof. split; repeat (constructor; try lia). Qed.

Variable word_address : Z.

(** Bit [i] of the deobfuscated word, traced back to the cipher word. *)
Lemma deobfuscate_testbit cipherword i :
  0 <= cipherword < 2 ^ 16 -> 0 <= i < 16 ->
  Z.testbit (deobfuscate cipherword word_address) i =
  Z.testbit cipherword ((swap_source i - rotation word_address) mod 16).
Proof.
  intros Hc Hi. unfold deobfuscate.
  rewrite BITSWAP16_range by apply positions_nonneg.
  rewrite BITSWAP16_testbit by (apply positions_nonneg || assumption).
  fold (swap_source i).
  apply rol_testbit;
    [assumption | apply rotation_range | apply swap_source_range; assumption].
Qed.

Lemma obfuscate_inverse_range word :
  0 <= obfuscate_inverse word word_address < 2 ^ 16.
Proof. unfold obfuscate_inverse, ror. apply to_u16_range. Qed.

Lemma obfuscate_inverse_testbit word i :
  0 <= i < 16 ->
  Z.testbit (obfuscate_inverse word word_address) i =
  Z.testbit word (unswap_source ((i + rotation word_address) mod 16)).
Proof.
  intros Hi. unfold obfuscate_inverse.
  pose proof (rotation_range word_address) as Hrot.
  assert (Hj : 0 <= (i + rotation word_address) mod 16 < 16)
    by (apply Z.mod_pos_bound; lia).
  rewrite ror_testbit by (apply to_u16_range || assumption).
  rewrite BITSWAP16_range by apply positions_nonneg.
  rewrite BITSWAP16_testbit by (apply positions_nonneg || assumption).
  reflexivity.
Qed.

Lemma obfuscate_inverse_deobfuscate w :
  0 <= w < 2 ^ 16 ->
  obfuscate_inverse (deobfuscate w word_address) word_address = w.
Proof.
  intros Hw. apply u16_eq;
    [apply obfuscate_inverse_range | assumption |].
  intros i Hi. pose proof (rotation_range word_address) as Hrot.
  assert (Hj : 0 <= (i + rotation word_address) mod 16 < 16)
    by (apply Z.mod_pos_bound; lia).
  rewrite obfuscate_inverse_testbit by assumption.
  rewrite deobfuscate_testbit
    by (assumption || apply unswap_source_range; assumption).
  rewrite swap_unswap by assumption.
  f_equal. Z.div_mod_to_equations. lia.
Qed.

Lemma deobfuscate_obfuscate_inverse v :
  0 <= v < 2 ^ 16 ->
  deobfuscate (obfuscate_inverse v word_address) word_address = v.
Proof.
  intros Hv. apply u16_eq; [apply deobfuscate_range | assumption |].
  intros i Hi. pose proof (rotation_range word_address) as Hrot.
  pose proof (swap_source_range i Hi) as Hp.
  assert (Hj : 0 <= (swap_source i - rotation word_address) mod 16 < 16)
    by (apply Z.mod_pos_bound; lia).
  rewrite deobfuscate_testbit by (apply obfuscate_inverse_range || assumption).
  rewrite obfuscate_inverse_testbit by assumption.
  replace (((swap_source i - rotation word_address) mod 16
            + rotation word_address) mod 16) with (swap_source i)
    by (Z.div_mod_to_equations; lia).
  rewrite unswap_swap by assumption. reflexivity.
Qed.

End Obfuscation.

(** C2.  At every address [deobfuscate] is a bijection of the 16-bit
    words: it maps them to 16-bit words, and [obfuscate_inverse] (the
    inverse permutation, then the rotation undone) is its inverse on both
    sides. *)
Theorem deobfuscate_bijection (word_address w : Z) :
  0 <= w < 2 ^ 16 ->
  0 <= deobfuscate w word_address < 2 ^ 16
  /\ 0 <= obfuscate_inverse w word_address < 2 ^ 16
  /\ obfuscate_inverse (deobfuscate w word_address) word_address = w
  /\ deobfuscate (obfuscate_inverse w word_address) word_address = w.
Proof.
  intros Hw. split; [apply deobfuscate_range |].
  split; [apply obfuscate_inverse_range |].
  split; [apply obfuscate_inverse_deobfuscate |
          apply deobfuscate_obfuscate_inverse]; assumption.
Qed.

Lemma deobfuscate_bijection_witness :
  obfuscate_inverse (deobfuscate 0x1234 0x800008) 0x800008 = 0x1234.
Proof.
  apply (deobfuscate_bijection 0x800008 0x1234). lia.
Defined.

(** C4.  Whatever the cipher word and the address, the bits 15..0 of
    the deobfuscated word are the bits 10, 9, 8, 7, 0, 15, 6, 5, 14, 13,
    4, 3, 12, 11, 2, 1 of the rotated word, in that order, and no other
    bit is set; no key enters. *)
Theorem deobfuscate_wiring (cipherword word_address : Z) :
  let rotated := rol cipherword (rotation word_address) in
  let out := deobfuscate cipherword word_address in
  Z.testbit out 15 = Z.testbit rotated 10 /\
  Z.testbit out 14 = Z.testbit rotated 9 /\
  Z.testbit out 13 = Z.testbit rotated 8 /\
  Z.testbit out 12 = Z.testbit rotated 7 /\
  Z.testbit out 11 = Z.testbit rotated 0 /\
  Z.testbit out 10 = Z.testbit rotated 15 /\
  Z.testbit out 9 = Z.testbit rotated 6 /\
  Z.testbit out 8 = Z.testbit rotated 5 /\
  Z.testbit out 7 = Z.testbit rotated 14 /\
  Z.testbit out 6 = Z.testbit rotated 13 /\
  Z.testbit out 5 = Z.testbit rotated 4 /\
  Z.testbit out 4 = Z.testbit rotated 3 /\
  Z.testbit out 3 = Z.testbit rotated 12 /\
  Z.testbit out 2 = Z.testbit rotated 11 /\
  Z.testbit out 1 = Z.testbit rotated 2 /\
  Z.testbit out 0 = Z.testbit rotated 1 /\
  0 <= out < 2 ^ 16.
Proof.
  intros rotated out. subst out. unfold deobfuscate. fold rotated.
  rewrite BITSWAP16_range by apply positions_nonneg.
  repeat split;
    try (rewrite BITSWAP16_testbit by (apply positions_nonneg || lia);
         reflexivity).
  - rewrite <- (BITSWAP16_range rotated) by apply positions_nonneg.
    apply to_u16_range.
  - rewrite <- (BITSWAP16_range rotated) by apply positions_nonneg.
    apply to_u16_range.
Qed.

(** ** The address bits the rotation consults *)

Section AddressBits.

Lemma BIT_ext a a' n :
  0 <= n -> Z.testbit a n = Z.testbit a' n -> BIT a n = BIT a' n.
Proof. intros Hn H. rewrite !BIT_b2z by assumption. rewrite H. reflexivity. Qed.

Lemma small_high_bits m k n :
  0 <= m < 2 ^ k -> 0 <= k <= n -> Z.testbit m n = false.
Proof.
  intros Hm Hk. rewrite <- (Z.mod_small m (2 ^ k)) by assumption.
  apply Z.mod_pow2_bits_high. lia.
Qed.

(** Masking keeps the bits of the mask only. *)
Lemma land_mask_ext a a' m :
  (forall n, 0 <= n -> Z.testbit m n = true -> Z.testbit a n = Z.testbit a' n) ->
  Z.land a m = Z.land a' m.
Proof.
  intros H. apply Z.bits_inj'. intros n Hn. rewrite !Z.land_spec.
  destruct (Z.testbit m n) eqn:Hm.
  - rewrite (H n Hn Hm). reflexivity.
  - rewrite !andb_false_r. reflexivity.
Qed.

Lemma land_low_ext a a' m k :
  0 <= m < 2 ^ k -> 0 <= k <= 5 -> agree_off_5_6 a a' ->
  Z.land a m = Z.land a' m.
Proof.
  intros Hm Hk Hagree. apply land_mask_ext. intros n Hn Hbit.
  destruct (Z.lt_ge_cases n k) as [Hlt | Hge].
  - apply Hagree; lia.
  - rewrite (small_high_bits m k n) in Hbit by lia. discriminate.
Qed.

Lemma consults_tables :
  Forall (Forall consults_3_4_7) rot_enabling
  /\ Forall (Forall consults_3_4_7) rot_direction.
Proof.
  split; repeat constructor; intros x y H3 H4 H7;
    unfold unknown, cZero, cOne, bit_3, bit_4, bit_7, not_3, not_4, not_7,
      xor_37, xnor_37, xor_47, xnor_47, nor_34, impl_43;
    rewrite ?(BIT_ext x y 3), ?(BIT_ext x y 4), ?(BIT_ext x y 7)
      by (lia || assumption);
    reflexivity.
Qed.

(** Whatever the subscripts, an entry of such a table consults bits 3,
    4 and 7 only. *)
Lemma sub2_consults table i j :
  Forall (Forall consults_3_4_7) table -> consults_3_4_7 (sub2 table i j).
Proof.
  intros Htable. unfold sub2, sub.
  destruct (nth_in_or_default (Z.to_nat i) table []) as [Hrow | ->].
  - rewrite List.Forall_forall in Htable. specialize (Htable _ Hrow).
    destruct (nth_in_or_default (Z.to_nat j)
                (nth (Z.to_nat i) table []) cZero) as [Hf | ->].
    + rewrite List.Forall_forall in Htable. exact (Htable _ Hf).
    + intros x y _ _ _. reflexivity.
  - destruct (Z.to_nat j); intros x y _ _ _; reflexivity.
Qed.

Lemma sub_nonneg (group : list Z) j :
  Forall (Z.le 0) group -> 0 <= sub 0 group j.
Proof.
  intros Hg. unfold sub.
  destruct (nth_in_or_default (Z.to_nat j) group 0) as [Hin | ->]; [| lia].
  rewrite List.Forall_forall in Hg. exact (Hg _ Hin).
Qed.

Variables a a' : Z.
Hypothesis Hagree : agree_off_5_6 a a'.

Lemma probe_agree :
  agree_off_5_6 (Z.lxor a (0x1b * BIT a 2)) (Z.lxor a' (0x1b * BIT a' 2)).
Proof.
  intros n Hn H5 H6. rewrite !Z.lxor_spec.
  rewrite (BIT_ext a a' 2) by (lia || apply Hagree; lia).
  rewrite (Hagree n) by assumption. reflexivity.
Qed.

Lemma rot_enabled_from_agree group n : forall j,
  Forall (Z.le 0) group ->
  rot_enabled_from a group j n = rot_enabled_from a' group j n.
Proof.
  induction n as [| n IH]; intros j Hg; [reflexivity |].
  cbn [rot_enabled_from]. pose proof (sub_nonneg group j Hg) as Hpos.
  rewrite (BIT_ext a a' (8 + sub 0 group j)) by (lia || apply Hagree; lia).
  destruct (truthy _); [| apply IH; assumption].
  rewrite (land_low_ext _ _ 3 2 ltac:(lia) ltac:(lia) probe_agree).
  apply sub2_consults; [apply consults_tables | ..];
    apply probe_agree; lia.
Qed.

Lemma rot_group_agree group : rot_group a group = rot_group a' group.
Proof.
  unfold rot_group.
  rewrite (land_low_ext a a' 7 3 ltac:(lia) ltac:(lia) Hagree).
  f_equal. f_equal.
  apply sub2_consults; [apply consults_tables | ..]; apply Hagree; lia.
Qed.

Lemma rotation_agree : rotation a = rotation a'.
Proof.
  assert (Hgroups : Forall (Z.le 0) group15 /\ Forall (Z.le 0) group14 /\
                    Forall (Z.le 0) group13 /\ Forall (Z.le 0) group12)
    by (repeat split; repeat (constructor; try lia)).
  destruct Hgroups as (H15 & H14 & H13 & H12).
  unfold rotation, rotation_rot, rotation_rot2, rot_enabled.
  rewrite !(rot_enabled_from_agree _ 4 0) by assumption.
  rewrite !rot_group_agree.
  rewrite (BIT_ext a a' 0), (BIT_ext a a' 1), (BIT_ext a a' 3),
    (BIT_ext a a' 4), (BIT_ext a a' 7) by (lia || apply Hagree; lia).
  reflexivity.
Qed.

End AddressBits.

Lemma testbit_0x60 n : 0 <= n -> n <> 5 -> n <> 6 -> Z.testbit 0x60 n = false.
Proof.
  intros Hn H5 H6. destruct (Z.lt_ge_cases n 7) as [Hlt | Hge].
  - assert (Hcases : n = 0 \/ n = 1 \/ n = 2 \/ n = 3 \/ n = 4) by lia.
    destruct Hcases as [-> | [-> | [-> | [-> | ->]]]]; reflexivity.
  - apply (small_high_bits 0x60 7); lia.
Qed.

(** Agreement off bits 5 and 6 can be computed: set both bits in the two
    addresses and compare. *)
Lemma agree_off_5_6_lor a a' :
  agree_off_5_6 a a' <-> Z.lor a 0x60 = Z.lor a' 0x60.
Proof.
  split.
  - intros Hagree. apply Z.bits_inj'. intros n Hn. rewrite !Z.lor_spec.
    destruct (Z.eq_dec n 5) as [-> | H5]; [rewrite !orb_true_r; reflexivity |].
    destruct (Z.eq_dec n 6) as [-> | H6]; [rewrite !orb_true_r; reflexivity |].
    rewrite (Hagree n) by assumption. reflexivity.
  - intros Heq n Hn H5 H6.
    assert (Hbit : Z.testbit (Z.lor a 0x60) n = Z.testbit (Z.lor a' 0x60) n)
      by (rewrite Heq; reflexivity).
    rewrite !Z.lor_spec, testbit_0x60, !orb_false_r in Hbit by assumption.
    exact Hbit.
Qed.

(** C10.  Two addresses that agree on every bit except possibly bits 5
    and 6 have the same rotation amount, and [deobfuscate] gives the same
    word for every cipher word at the two addresses. *)
Theorem rotation_ignores_bits_5_6 (a a' : Z) :
  agree_off_5_6 a a' ->
  rotation a = rotation a'
  /\ forall cipherword : Z, deobfuscate cipherword a = deobfuscate cipherword a'.
Proof.
  intros Hagree. pose proof (rotation_agree a a' Hagree) as Hrot.
  split; [exact Hrot |].
  intros cipherword. unfold deobfuscate. rewrite Hrot. reflexivity.
Qed.

Lemma rotation_ignores_bits_5_6_witness :
  rotation 0x812345 = rotation 0x812325
  /\ deobfuscate 0x1234 0x812345 = deobfuscate 0x1234 0x812325.
Proof.
  destruct (rotation_ignores_bits_5_6 0x812345 0x812325) as [Hrot Hdeob].
  - apply agree_off_5_6_lor. reflexivity.
  - split; [exact Hrot | exact (Hdeob 0x1234)].
Defined.

(** ** The region as bytes and as words *)

(** Linear arithmetic with divisions by constants. *)
Ltac dlia := Z.div_mod_to_equations; lia.

Section Region.

Lemma byte_val_of z : byte_val (byte_of z) = z mod 256.
Proof.
  unfold byte_val, byte_of.
  pose proof (Z.mod_pos_bound z 256 ltac:(lia)) as Hz.
  destruct (Byte.of_N (Z.to_N (z mod 256))) as [b |] eqn:E.
  - apply Byte.to_of_N in E. rewrite E. lia.
  - apply Byte.of_N_None_iff in E. lia.
Qed.

(** The two bytes of a 16-bit word give the word back. *)
Lemma word_of_bytes w :
  0 <= w < 2 ^ 16 ->
  byte_val (byte_of (w / 256)) * 256 + byte_val (byte_of w) = w.
Proof.
  intros Hw. rewrite !byte_val_of.
  rewrite (Z.mod_small (w / 256)) by (Z.div_mod_to_equations; lia).
  Z.div_mod_to_equations. lia.
Qed.

Variable be : bool.

Lemma length_rom_set (rom : list byte) i w :
  length (rom_set be rom i w) = length rom.
Proof. unfold rom_set. destruct be; rewrite !length_insert; reflexivity. Qed.

Lemma rom_set_lookup_other (rom : list byte) i w (k : nat) :
  k <> Z.to_nat (2 * i) -> k <> Z.to_nat (2 * i + 1) ->
  rom_set be rom i w !! k = rom !! k.
Proof.
  intros H0 H1. unfold rom_set.
  destruct be; rewrite !list_lookup_insert_ne by congruence; reflexivity.
Qed.

Lemma rom_get_set_same (rom : list byte) i w :
  0 <= i -> 2 * i + 1 < Z.of_nat (length rom) -> 0 <= w < 2 ^ 16 ->
  rom_get be (rom_set be rom i w) i = w.
Proof.
  intros Hi Hlen Hw. unfold rom_get, rom_set, sub. rewrite !nth_lookup.
  destruct be;
    rewrite (list_lookup_insert_ne _ (Z.to_nat (2 * i + 1)) (Z.to_nat (2 * i)))
      by lia;
    rewrite !list_lookup_insert_eq by (rewrite ?length_insert; lia);
    cbn [default]; apply word_of_bytes; assumption.
Qed.

Lemma rom_get_set_other (rom : list byte) i j w :
  0 <= i -> 0 <= j -> i <> j ->
  rom_get be (rom_set be rom i w) j = rom_get be rom j.
Proof.
  intros Hi Hj Hne. unfold rom_get, sub. rewrite !nth_lookup.
  rewrite !rom_set_lookup_other by lia. reflexivity.
Qed.

Lemma rom_get_app (xs tail : list byte) i :
  0 <= i -> 2 * i + 1 < Z.of_nat (length xs) ->
  rom_get be (xs ++ tail) i = rom_get be xs i.
Proof.
  intros Hi Hlen. unfold rom_get, sub. rewrite !nth_lookup.
  rewrite !lookup_app_l by lia. reflexivity.
Qed.

Lemma rom_set_app (xs tail : list byte) i w :
  0 <= i -> 2 * i + 1 < Z.of_nat (length xs) ->
  rom_set be (xs ++ tail) i w = rom_set be xs i w ++ tail.
Proof.
  intros Hi Hlen. unfold rom_set.
  destruct be;
    rewrite (insert_app_l xs) by lia;
    rewrite insert_app_l by (rewrite length_insert; lia);
    reflexivity.
Qed.

Variable key : list Z.

Lemma length_decrypter_rom_from n : forall (rom : list byte) i,
  length (decrypter_rom_from key be rom i n) = length rom.
Proof.
  induction n as [| n IH]; intros rom i; [reflexivity |].
  cbn [decrypter_rom_from]. rewrite IH. apply length_rom_set.
Qed.

(** After the loop, the words it has visited are decrypted from their
    original value and their own index, and every other word is as it
    was. *)
Lemma decrypter_rom_from_get n : forall (rom : list byte) i j,
  0 <= i -> 2 * (i + Z.of_nat n) <= Z.of_nat (length rom) -> 0 <= j ->
  rom_get be (decrypter_rom_from key be rom i n) j =
  if (i <=? j) && (j <? i + Z.of_nat n)
  then decrypt key (rom_get be rom j) j
  else rom_get be rom j.
Proof.
  induction n as [| n IH]; intros rom i j Hi Hlen Hj.
  - cbn [decrypter_rom_from]. cmp_cases; try lia; reflexivity.
  - cbn [decrypter_rom_from].
    rewrite IH by (rewrite ?length_rom_set; lia).
    destruct (Z.eq_dec i j) as [<- | Hne].
    + rewrite rom_get_set_same by (lia || apply decrypt_range).
      cmp_cases; try lia; reflexivity.
    + rewrite rom_get_set_other by lia.
      cmp_cases; try lia; reflexivity.
Qed.

(** The loop does not look at, or touch, what lies behind the words it
    visits. *)
Lemma decrypter_rom_from_app n : forall (xs tail : list byte) i,
  0 <= i -> 2 * (i + Z.of_nat n) <= Z.of_nat (length xs) ->
  decrypter_rom_from key be (xs ++ tail) i n =
  decrypter_rom_from key be xs i n ++ tail.
Proof.
  induction n as [| n IH]; intros xs tail i Hi Hlen; [reflexivity |].
  cbn [decrypter_rom_from].
  rewrite rom_get_app, rom_set_app by lia.
  apply IH; [lia | rewrite length_rom_set; lia].
Qed.

(** A region whose size fits an [int] is visited word by word, half
    its size in bytes many times. *)
Lemma decrypter_rom_loop (region : memory_region) :
  Z.of_nat (length region) < 2 ^ 31 ->
  decrypter_rom key be region =
  decrypter_rom_from key be region 0 (Z.to_nat (Z.of_nat (length region) / 2)).
Proof.
  intros Hsize. unfold decrypter_rom, to_int.
  rewrite Z.mod_small by lia.
  replace (Z.of_nat (length region) + 2 ^ 31 - 2 ^ 31)
    with (Z.of_nat (length region)) by lia.
  rewrite Z.quot_div_nonneg by lia. reflexivity.
Qed.

End Region.

(** C7.  On a region whose size in bytes fits an [int], under either
    byte order, [decrypter_rom] leaves at every word index [i] below the
    word count the decryption of the word that was there, at address [i];
    the words of the result are the words of the region with [decrypt]
    mapped over them, each with its own index. *)
Theorem decrypter_rom_words (key : list Z) (be : bool) (region : memory_region) :
  Z.of_nat (length region) < 2 ^ 31 ->
  (forall i, 0 <= i < Z.of_nat (length region) / 2 ->
     rom_get be (decrypter_rom key be region) i =
     decrypt key (rom_get be region i) i)
  /\ region_words be (decrypter_rom key be region) =
     imap (fun i w => decrypt key w (Z.of_nat i)) (region_words be region).
Proof.
  intros Hsize.
  assert (Hword : forall i, 0 <= i < Z.of_nat (length region) / 2 ->
            rom_get be (decrypter_rom key be region) i =
            decrypt key (rom_get be region i) i).
  { intros i Hi. rewrite decrypter_rom_loop by assumption.
    rewrite decrypter_rom_from_get by dlia.
    cmp_cases; try lia; reflexivity. }
  split; [exact Hword |].
  apply list_eq. intros k. unfold region_words.
  rewrite list_lookup_imap, !list_lookup_fmap.
  rewrite decrypter_rom_loop, length_decrypter_rom_from by assumption.
  rewrite <- decrypter_rom_loop by assumption.
  destruct (Z.lt_ge_cases (Z.of_nat k) (Z.of_nat (length region) / 2))
    as [Hlt | Hge].
  - rewrite lookup_seqZ_lt by assumption. cbn [fmap option_fmap option_map].
    f_equal. rewrite Z.add_0_l. apply Hword. dlia.
  - rewrite lookup_seqZ_ge by assumption. reflexivity.
Qed.

Lemma decrypter_rom_words_witness :
  region_words false (decrypter_rom orleg2_key false
                        [x01; x02; x03; x04; x05])
  = imap (fun i w => decrypt orleg2_key w (Z.of_nat i))
         (region_words false [x01; x02; x03; x04; x05]).
Proof.
  apply (decrypter_rom_words orleg2_key false
           [x01; x02; x03; x04; x05]).
  cbn [length]. dlia.
Defined.



(** ** Regions too large for the [int] size *)

Lemma length_region_2_31 : Z.of_nat (length region_2_31) = 2 ^ 31.
Proof.
  unfold region_2_31. rewrite repeat_length. apply Z2Nat.id. lia.
Qed.

Lemma rom_get_region_2_31 be i : rom_get be region_2_31 i = 0.
Proof.
  unfold rom_get, sub, region_2_31. rewrite !nth_repeat.
  destruct be; reflexivity.
Qed.

(** From 2^31 bytes up to the 32 bits of the byte count, [size] is
    negative and the loop is not entered. *)
Lemma decrypter_rom_beyond_int key be (region : memory_region) :
  2 ^ 31 <= Z.of_nat (length region) < 2 ^ 32 ->
  decrypter_rom key be region = region.
Proof.
  intros Hsize. unfold decrypter_rom, to_int.
  replace (Z.to_nat (((Z.of_nat (length region) + 2 ^ 31) mod 2 ^ 32 - 2 ^ 31) ÷ 2))
    with 0%nat by (Z.to_euclidean_division_equations; lia).
  reflexivity.
Qed.

(** Without the bound on the size the words are not all decrypted: in
    the region of 2^31 zero bytes word 0 stays 0, and its decryption with
    the key of orleg2 is not 0. *)
Lemma decrypter_rom_words_counterexample :
  ~ (forall i, 0 <= i < Z.of_nat (length region_2_31) / 2 ->
       rom_get false (decrypter_rom orleg2_key false region_2_31) i =
       decrypt orleg2_key (rom_get false region_2_31 i) i).
Proof.
  intros Hall. specialize (Hall 0).
  rewrite decrypter_rom_beyond_int in Hall
    by (rewrite length_region_2_31; lia).
  rewrite length_region_2_31, !rom_get_region_2_31 in Hall.
  assert (Hword : 0 = decrypt orleg2_key 0 0)
    by (apply Hall; Z.div_mod_to_equations; lia).
  vm_compute in Hword. discriminate.
Qed.




(** ** No undefined case is ever reached *)

Section NoUndefinedCase.

Lemma shr_defined x n : 0 <= n < 32 -> Partial.shr x n = Some (Z.shiftr x n).
Proof.
  intros Hn. unfold Partial.shr.
  destruct (Z.leb_spec 0 n); [| lia]. destruct (Z.ltb_spec n 32); [| lia].
  reflexivity.
Qed.

Lemma shl_defined x n :
  0 <= n < 32 -> 0 <= x -> x * 2 ^ n < 2 ^ 31 ->
  Partial.shl x n = Some (Z.shiftl x n).
Proof.
  intros Hn Hx Hfit. unfold Partial.shl.
  rewrite Z.shiftl_mul_pow2 by lia.
  destruct (Z.leb_spec 0 n); [| lia]. destruct (Z.ltb_spec n 32); [| lia].
  destruct (Z.leb_spec 0 x); [| lia].
  destruct (Z.ltb_spec (x * 2 ^ n) (2 ^ 31)); [| lia].
  reflexivity.
Qed.

Lemma at_defined {A : Type} (d : A) (a : list A) i :
  0 <= i < Z.of_nat (length a) -> Partial.at_ a i = Some (sub d a i).
Proof.
  intros Hi. unfold Partial.at_, sub.
  destruct (Z.leb_spec 0 i); [| lia].
  destruct (nth_lookup_or_length a (Z.to_nat i) d) as [Hsome | Hlen];
    [exact Hsome | lia].
Qed.

Lemma BIT_defined x n : 0 <= n < 32 -> Partial.BIT x n = Some (BIT x n).
Proof.
  intros Hn. unfold Partial.BIT. rewrite shr_defined by assumption.
  reflexivity.
Qed.

Lemma land_ones_range x k : 0 <= k -> 0 <= Z.land x (Z.ones k) < 2 ^ k.
Proof.
  intros Hk. rewrite Z.land_ones by assumption.
  apply Z.mod_pos_bound. apply Z.pow_pos_nonneg; lia.
Qed.

Lemma sub_In {A : Type} (d : A) (a : list A) i :
  0 <= i < Z.of_nat (length a) -> In (sub d a i) a.
Proof. intros Hi. unfold sub. apply nth_In. lia. Qed.

(** A subscript pair inside a rectangular table is defined. *)
Lemma sub2_defined table cols i j (k : (Z -> Z) -> option Z) :
  Forall (fun row : list (Z -> Z) => Z.of_nat (length row) = cols) table ->
  0 <= i < Z.of_nat (length table) -> 0 <= j < cols ->
  (row ← Partial.at_ table i; f ← Partial.at_ row j; k f)
  = k (sub2 table i j).
Proof.
  intros Hrect Hi Hj. rewrite (at_defined [] table i Hi).
  cbn [mbind option_bind].
  rewrite List.Forall_forall in Hrect.
  pose proof (Hrect _ (sub_In [] table i Hi)) as Hrow.
  rewrite (at_defined cZero (sub [] table i) j) by lia.
  reflexivity.
Qed.

Lemma tables_rectangular :
  Forall (fun row : list (Z -> Z) => Z.of_nat (length row) = 4) rot_enabling
  /\ Forall (fun row : list (Z -> Z) => Z.of_nat (length row) = 8) rot_direction.
Proof. split; repeat constructor. Qed.

Variable address : Z.

Lemma rot_enabled_from_defined group n : forall j,
  Forall (fun g => 0 <= g < 16) group ->
  0 <= j -> j + Z.of_nat n <= Z.of_nat (length group) ->
  Partial.rot_enabled_from address group j n
  = Some (rot_enabled_from address group j n).
Proof.
  induction n as [| n IH]; intros j Hgroup Hj Hlen; [reflexivity |].
  cbn [Partial.rot_enabled_from rot_enabled_from].
  rewrite (at_defined 0 group j) by lia. cbn [mbind option_bind].
  assert (Hg : 0 <= sub 0 group j < 16).
  { rewrite List.Forall_forall in Hgroup. apply Hgroup, sub_In. lia. }
  rewrite (BIT_defined address (8 + sub 0 group j)) by lia.
  cbn [mbind option_bind].
  destruct (truthy (BIT address (8 + sub 0 group j)));
    [| apply IH; assumption || lia].
  rewrite (BIT_defined address 2) by lia. cbn [mbind option_bind].
  apply (sub2_defined rot_enabling 4 _ _ (fun f => Some (f _)));
    [apply tables_rectangular | exact Hg | apply (land_ones_range _ 2); lia].
Qed.

Lemma rot_group_defined group :
  (0 < length group)%nat ->
  Partial.rot_group address group = Some (rot_group address group).
Proof.
  intros Hlen. unfold Partial.rot_group, rot_group.
  rewrite (at_defined 0 group 0) by lia. cbn [mbind option_bind].
  apply (sub2_defined rot_direction 8 _ _ (fun f => Some (f address * 2 - 1)));
    [apply tables_rectangular | apply (land_ones_range _ 2); lia
    | apply (land_ones_range _ 3); lia].
Qed.

Lemma rotation_defined : Partial.rotation address = Some (rotation address).
Proof.
  assert (Hgroups : forall group,
             In group [group15; group14; group13; group12] ->
             Partial.rot_enabled address group = Some (rot_enabled address group)
             /\ Partial.rot_group address group = Some (rot_group address group)).
  { intros group Hin. cbn [In] in Hin.
    assert (Hgroup : Forall (fun g => 0 <= g < 16) group /\ length group = 4%nat).
    { destruct Hin as [<- | [<- | [<- | [<- | []]]]];
        (split; [repeat (constructor; try lia) | reflexivity]). }
    destruct Hgroup as [Hbounds Hlen]. split.
    - apply rot_enabled_from_defined; [exact Hbounds | lia | lia].
    - apply rot_group_defined. lia. }
  unfold Partial.rotation, Partial.rotation_rot, rotation, rotation_rot.
  destruct (Hgroups group15 ltac:(cbn [In]; auto)) as [-> ->].
  destruct (Hgroups group14 ltac:(cbn [In]; auto)) as [-> ->].
  destruct (Hgroups group13 ltac:(cbn [In]; auto)) as [-> ->].
  destruct (Hgroups group12 ltac:(cbn [In]; auto)) as [-> ->].
  reflexivity.
Qed.

Lemma rol_defined num shift :
  0 <= num < 2 ^ 16 -> 0 <= shift <= 15 ->
  Partial.rol num shift = Some (rol num shift).
Proof.
  intros Hnum Hshift. unfold Partial.rol, rol.
  rewrite shl_defined, shr_defined; [reflexivity | lia | lia | lia |].
  assert (2 ^ shift <= 2 ^ 15) by (apply Z.pow_le_mono_r; lia).
  nia.
Qed.

(** With a shift of 0 the word is returned as it is: the right shift is
    by 16, below the width of the promoted operand. *)
Lemma rol_0 num : 0 <= num < 2 ^ 16 -> rol num 0 = num.
Proof.
  intros Hnum. unfold rol.
  rewrite Z.shiftl_0_r, Z.shiftr_div_pow2 by lia.
  rewrite Z.div_small by lia.
  rewrite (to_u16_small num) by assumption.
  rewrite (to_u16_small 0) by lia.
  rewrite Z.lor_0_r. apply to_u16_small. assumption.
Qed.

Lemma deobfuscate_defined cipherword :
  0 <= cipherword < 2 ^ 16 ->
  Partial.deobfuscate cipherword address = Some (deobfuscate cipherword address).
Proof.
  intros Hc. unfold Partial.deobfuscate, deobfuscate.
  rewrite rotation_defined. cbn [mbind option_bind].
  rewrite rol_defined by (assumption || apply rotation_range).
  reflexivity.
Qed.

Variable key : list Z.
Hypothesis Hkey : length key = 256%nat.

Lemma decrypt_step_defined i aux :
  0 <= i < 16 ->
  Partial.decrypt_step key address i aux = Some (decrypt_step key address i aux).
Proof.
  intros Hi. unfold Partial.decrypt_step, decrypt_step.
  rewrite (at_defined 0 key)
    by (rewrite Hkey; apply (land_ones_range _ 8); lia).
  cbn [mbind option_bind]. rewrite BIT_defined by lia.
  cbn [mbind option_bind]. destruct (truthy _); [| reflexivity].
  rewrite (at_defined (0, 0) triggers i) by (cbn [triggers length]; lia).
  cbn [mbind option_bind]. destruct (_ =? _); [| reflexivity].
  rewrite shl_defined; [reflexivity | lia | lia |].
  assert (2 ^ i <= 2 ^ 15) by (apply Z.pow_le_mono_r; lia). lia.
Qed.

Lemma decrypt_from_defined n : forall i aux,
  0 <= i -> i + Z.of_nat n <= 16 ->
  Partial.decrypt_from key address i n aux
  = Some (decrypt_from key address i n aux).
Proof.
  induction n as [| n IH]; intros i aux Hi Hn; [reflexivity |].
  cbn [Partial.decrypt_from decrypt_from].
  rewrite decrypt_step_defined by lia. cbn [mbind option_bind].
  apply IH; lia.
Qed.

Lemma decrypt_defined cipherword :
  0 <= cipherword < 2 ^ 16 ->
  Partial.decrypt key cipherword address = Some (decrypt key cipherword address).
Proof.
  intros Hc. unfold Partial.decrypt, decrypt.
  rewrite deobfuscate_defined by assumption. cbn [mbind option_bind].
  rewrite decrypt_from_defined by lia. reflexivity.
Qed.

End NoUndefinedCase.

(** C8.  For a 256-entry key, a cipher word below 2^16 and an address
    below 2^24, the evaluation of [decrypt] meets no undefined shift or
    subscript and gives the value of the function [decrypt] of its three
    arguments, a 16-bit word; and a left rotation by 0 of a 16-bit word
    is defined and returns the word. *)
Theorem decrypt_total (key : list Z) (cipherword word_address : Z) :
  length key = 256%nat ->
  0 <= cipherword < 2 ^ 16 ->
  0 <= word_address < 2 ^ 24 ->
  Partial.decrypt key cipherword word_address
    = Some (decrypt key cipherword word_address)
  /\ 0 <= decrypt key cipherword word_address < 2 ^ 16
  /\ Partial.rol cipherword 0 = Some cipherword
  /\ rol cipherword 0 = cipherword.
Proof.
  intros Hkey Hc _.
  split; [apply decrypt_defined; assumption |].
  split; [apply decrypt_range |].
  split; [| apply rol_0; assumption].
  rewrite rol_defined by lia. f_equal. apply rol_0. assumption.
Qed.

Lemma decrypt_total_witness :
  Partial.decrypt orleg2_key 0x1234 0xabcdef
    = Some (decrypt orleg2_key 0x1234 0xabcdef)
  /\ rol 0x1234 0 = 0x1234.
Proof.
  destruct (decrypt_total orleg2_key 0x1234 0xabcdef)
    as (Hdef & _ & _ & Hrol).
  - reflexivity.
  - lia.
  - lia.
  - split; [exact Hdef | exact Hrol].
Defined.

(** The undefined cases are really there: a rotation by 17 would shift
    right by -1. *)
Example rol_by_17_undefined : Partial.rol 1 17 = None.
Proof. reflexivity. Qed.

(** * Further properties of the transform *)

(** ** The cipher as an XOR pad over a bit permutation *)

Section Pad.

Variable key : list Z.
Variable word_address : Z.

Lemma decrypt_testbit cipherword i :
  0 <= i < 16 ->
  Z.testbit (decrypt key cipherword word_address) i =
  xorb (xorb (Z.testbit (deobfuscate cipherword word_address) i)
             (fires key word_address i))
       (Z.testbit 0x1a3a i).
Proof.
  intros Hi. unfold decrypt.
  rewrite to_u16_testbit, Z.lxor_spec, decrypt_from_testbit by lia.
  cmp_cases; try lia. reflexivity.
Qed.

Lemma deobfuscate_0 : deobfuscate 0 word_address = 0.
Proof.
  apply u16_eq; [apply deobfuscate_range | lia |].
  intros i Hi. rewrite deobfuscate_testbit by lia.
  rewrite !Z.bits_0. reflexivity.
Qed.

(** The pad: what [decrypt] XORs onto the deobfuscated word. *)
Lemma decrypt_pad cipherword :
  decrypt key cipherword word_address =
  Z.lxor (deobfuscate cipherword word_address) (decrypt key 0 word_address).
Proof.
  apply u16_eq;
    [apply decrypt_range
    | apply lxor_u16; [apply deobfuscate_range | apply decrypt_range] |].
  intros i Hi. rewrite Z.lxor_spec, !decrypt_testbit by assumption.
  rewrite deobfuscate_0, Z.bits_0.
  destruct (Z.testbit (deobfuscate cipherword word_address) i),
    (fires key word_address i), (Z.testbit 0x1a3a i); reflexivity.
Qed.

Lemma deobfuscate_lxor c1 c2 :
  0 <= c1 < 2 ^ 16 -> 0 <= c2 < 2 ^ 16 ->
  deobfuscate (Z.lxor c1 c2) word_address =
  Z.lxor (deobfuscate c1 word_address) (deobfuscate c2 word_address).
Proof.
  intros H1 H2.
  apply u16_eq;
    [apply deobfuscate_range
    | apply lxor_u16; apply deobfuscate_range |].
  intros i Hi.
  rewrite Z.lxor_spec,
    !deobfuscate_testbit by (assumption || apply lxor_u16; assumption).
  apply Z.lxor_spec.
Qed.

Lemma decrypt_injective c1 c2 :
  0 <= c1 < 2 ^ 16 -> 0 <= c2 < 2 ^ 16 ->
  decrypt key c1 word_address = decrypt key c2 word_address -> c1 = c2.
Proof.
  intros H1 H2 Heq.
  rewrite (decrypt_pad c1), (decrypt_pad c2) in Heq.
  apply (f_equal (fun v => Z.lxor v (decrypt key 0 word_address))) in Heq.
  rewrite !Z.lxor_assoc, Z.lxor_nilpotent, !Z.lxor_0_r in Heq.
  rewrite <- (obfuscate_inverse_deobfuscate word_address c1 H1).
  rewrite <- (obfuscate_inverse_deobfuscate word_address c2 H2).
  rewrite Heq. reflexivity.
Qed.

Lemma decrypt_surjective v :
  0 <= v < 2 ^ 16 ->
  decrypt key
    (obfuscate_inverse (Z.lxor v (decrypt key 0 word_address)) word_address)
    word_address = v.
Proof.
  intros Hv. rewrite decrypt_pad.
  rewrite deobfuscate_obfuscate_inverse
    by (apply lxor_u16; [assumption | apply decrypt_range]).
  rewrite Z.lxor_assoc, Z.lxor_nilpotent. apply Z.lxor_0_r.
Qed.

End Pad.

(** X1.  For a fixed key and address [decrypt] is a bijection of the
    16-bit words: two cipher words with the same plain word are equal,
    and every 16-bit word is the plain word of some 16-bit cipher word. *)
Theorem decrypt_bijective (key : list Z) (word_address : Z) :
  (forall c1 c2 : Z,
     0 <= c1 < 2 ^ 16 -> 0 <= c2 < 2 ^ 16 ->
     decrypt key c1 word_address = decrypt key c2 word_address -> c1 = c2)
  /\ (forall v : Z,
        0 <= v < 2 ^ 16 ->
        exists c : Z, 0 <= c < 2 ^ 16 /\ decrypt key c word_address = v).
Proof.
  split.
  - apply decrypt_injective.
  - intros v Hv.
    exists (obfuscate_inverse (Z.lxor v (decrypt key 0 word_address)) word_address).
    split; [apply obfuscate_inverse_range | apply decrypt_surjective; assumption].
Qed.

Lemma decrypt_bijective_witness :
  exists c : Z, 0 <= c < 2 ^ 16 /\ decrypt kov3_key c 0x2345 = 0xbeef.
Proof.
  apply (proj2 (decrypt_bijective kov3_key 0x2345) 0xbeef). lia.
Defined.

(** X2.  At every address [deobfuscate] commutes with XOR on 16-bit
    words, and so maps 0 to 0: it only moves bits. *)
Theorem deobfuscate_xor_linear (word_address c1 c2 : Z) :
  0 <= c1 < 2 ^ 16 -> 0 <= c2 < 2 ^ 16 ->
  deobfuscate (Z.lxor c1 c2) word_address =
  Z.lxor (deobfuscate c1 word_address) (deobfuscate c2 word_address)
  /\ deobfuscate 0 word_address = 0.
Proof.
  intros H1 H2. split; [apply deobfuscate_lxor; assumption | apply deobfuscate_0].
Qed.

Lemma deobfuscate_xor_linear_witness :
  deobfuscate (Z.lxor 0x1234 0xff00) 0x812345 =
  Z.lxor (deobfuscate 0x1234 0x812345) (deobfuscate 0xff00 0x812345).
Proof.
  apply (deobfuscate_xor_linear 0x812345 0x1234 0xff00); lia.
Defined.

(** X3.  Whatever the cipher word, [decrypt] is [deobfuscate] XORed
    with a pad that depends on the key and the address only, the plain
    word of the cipher word 0; so the plain words of two cipher words at
    one address differ by the XOR of their deobfuscations, whatever the
    key. *)
Theorem decrypt_is_padded_deobfuscate (key : list Z) (word_address c : Z) :
  decrypt key c word_address =
  Z.lxor (deobfuscate c word_address) (decrypt key 0 word_address)
  /\ forall (key' : list Z) (c' : Z),
       Z.lxor (decrypt key c word_address) (decrypt key c' word_address) =
       Z.lxor (decrypt key' c word_address) (decrypt key' c' word_address).
Proof.
  split; [apply decrypt_pad |].
  intros key' c'.
  rewrite (decrypt_pad key _ c), (decrypt_pad key _ c'),
    (decrypt_pad key' _ c), (decrypt_pad key' _ c').
  set (d := deobfuscate c word_address).
  set (d' := deobfuscate c' word_address).
  set (p := decrypt key 0 word_address).
  set (p' := decrypt key' 0 word_address).
  apply Z.bits_inj'. intros n _. rewrite !Z.lxor_spec.
  destruct (Z.testbit d n), (Z.testbit d' n), (Z.testbit p n),
    (Z.testbit p' n); reflexivity.
Qed.

(** ** The 24 address bits *)

Section LowAddress.

Lemma triggers_16_bit :
  Forall (fun t : Z * Z => 0 <= fst t < 2 ^ 16) triggers.
Proof. repeat (constructor; [cbn [fst]; lia |]). constructor. Qed.

Lemma sub_trigger_mask i : 0 <= fst (sub (0, 0) triggers i) < 2 ^ 16.
Proof.
  unfold sub.
  destruct (nth_in_or_default (Z.to_nat i) triggers (0, 0)) as [Hin | ->];
    [| cbn [fst]; lia].
  pose proof triggers_16_bit as H. rewrite List.Forall_forall in H.
  exact (H _ Hin).
Qed.

Lemma groups_in_table group :
  In group [group15; group14; group13; group12] ->
  Forall (fun g => 0 <= g < 16) group /\ length group = 4%nat.
Proof.
  cbn [In]. intros [<- | [<- | [<- | [<- | []]]]];
    (split; [repeat (constructor; try lia) | reflexivity]).
Qed.

Lemma sub_bounded (group : list Z) j :
  Forall (fun g => 0 <= g < 16) group -> 0 <= sub 0 group j < 16.
Proof.
  intros Hg. unfold sub.
  destruct (nth_in_or_default (Z.to_nat j) group 0) as [Hin | ->]; [| lia].
  rewrite List.Forall_forall in Hg. exact (Hg _ Hin).
Qed.

Variables a a' : Z.
Hypothesis Hagree : agree_low_24 a a'.

Lemma land_low_24_ext m :
  0 <= m < 2 ^ 24 -> Z.land a m = Z.land a' m.
Proof.
  intros Hm. apply land_mask_ext. intros n Hn Hbit.
  destruct (Z.lt_ge_cases n 24) as [Hlt | Hge].
  - apply Hagree. lia.
  - rewrite (small_high_bits m 24 n) in Hbit by lia. discriminate.
Qed.

Lemma probe_agree_24 :
  agree_low_24 (Z.lxor a (0x1b * BIT a 2)) (Z.lxor a' (0x1b * BIT a' 2)).
Proof.
  intros n Hn. rewrite !Z.lxor_spec.
  rewrite (BIT_ext a a' 2) by (lia || apply Hagree; lia).
  rewrite (Hagree n) by assumption. reflexivity.
Qed.

Lemma rot_enabled_from_agree_24 group n : forall j,
  Forall (fun g => 0 <= g < 16) group ->
  rot_enabled_from a group j n = rot_enabled_from a' group j n.
Proof.
  induction n as [| n IH]; intros j Hg; [reflexivity |].
  cbn [rot_enabled_from]. pose proof (sub_bounded group j Hg) as Hpos.
  rewrite (BIT_ext a a' (8 + sub 0 group j)) by (lia || apply Hagree; lia).
  destruct (truthy _); [| apply IH; assumption].
  assert (Hland : Z.land (Z.lxor a (0x1b * BIT a 2)) 3 =
                  Z.land (Z.lxor a' (0x1b * BIT a' 2)) 3).
  { apply land_mask_ext. intros k Hk Hbit.
    destruct (Z.lt_ge_cases k 2) as [Hlt | Hge].
    - apply probe_agree_24. lia.
    - rewrite (small_high_bits 3 2 k) in Hbit by lia. discriminate. }
  rewrite Hland.
  apply sub2_consults; [apply consults_tables | ..];
    apply probe_agree_24; lia.
Qed.

Lemma rot_group_agree_24 group : rot_group a group = rot_group a' group.
Proof.
  unfold rot_group. rewrite (land_low_24_ext 7) by lia.
  f_equal. f_equal.
  apply sub2_consults; [apply consults_tables | ..]; apply Hagree; lia.
Qed.

Lemma rotation_agree_24 : rotation a = rotation a'.
Proof.
  unfold rotation, rotation_rot, rotation_rot2, rot_enabled.
  rewrite (rot_enabled_from_agree_24 group15 4 0),
    (rot_enabled_from_agree_24 group14 4 0),
    (rot_enabled_from_agree_24 group13 4 0),
    (rot_enabled_from_agree_24 group12 4 0)
    by (apply groups_in_table; cbn [In]; auto).
  rewrite !rot_group_agree_24.
  rewrite (BIT_ext a a' 0), (BIT_ext a a' 1), (BIT_ext a a' 3),
    (BIT_ext a a' 4), (BIT_ext a a' 7) by (lia || apply Hagree; lia).
  reflexivity.
Qed.

Lemma decrypt_step_agree_24 key i aux :
  decrypt_step key a i aux = decrypt_step key a' i aux.
Proof.
  unfold decrypt_step. rewrite (land_low_24_ext 0xff) by lia.
  assert (Hhigh : Z.land (Z.shiftr a 8) (fst (sub (0, 0) triggers i)) =
                  Z.land (Z.shiftr a' 8) (fst (sub (0, 0) triggers i))).
  { pose proof (sub_trigger_mask i) as Hmask.
    apply land_mask_ext. intros n Hn Hbit.
    rewrite !Z.shiftr_spec by assumption.
    destruct (Z.lt_ge_cases n 16) as [Hlt | Hge].
    - apply Hagree. lia.
    - rewrite (small_high_bits _ 16 n) in Hbit by (assumption || lia).
      discriminate. }
  rewrite Hhigh. reflexivity.
Qed.

Lemma decrypt_from_agree_24 key n : forall i aux,
  decrypt_from key a i n aux = decrypt_from key a' i n aux.
Proof.
  induction n as [| n IH]; intros i aux; [reflexivity |].
  cbn [decrypt_from]. rewrite decrypt_step_agree_24. apply IH.
Qed.

Lemma decrypt_agree_24 key cipherword :
  decrypt key cipherword a = decrypt key cipherword a'.
Proof.
  unfold decrypt, deobfuscate.
  rewrite rotation_agree_24, decrypt_from_agree_24. reflexivity.
Qed.

End LowAddress.

(** Reducing an address modulo 2^24 keeps its bits 0..23. *)
Lemma agree_low_24_mod a : agree_low_24 a (a mod 2 ^ 24).
Proof.
  intros n Hn. rewrite Z.mod_pow2_bits_low by lia. reflexivity.
Qed.

(** X4.  Only the bits 0..23 of the word address enter the transform:
    the rotation and the plain word are the same at an address and at
    that address reduced modulo 2^24, so the words 2^24 apart are
    decrypted alike. *)
Theorem decrypt_uses_24_address_bits (key : list Z) (cipherword address : Z) :
  rotation address = rotation (address mod 2 ^ 24)
  /\ decrypt key cipherword address = decrypt key cipherword (address mod 2 ^ 24)
  /\ decrypt key cipherword (address + 2 ^ 24) = decrypt key cipherword address.
Proof.
  split; [apply rotation_agree_24, agree_low_24_mod |].
  split; [apply decrypt_agree_24, agree_low_24_mod |].
  rewrite (decrypt_agree_24 _ _ (agree_low_24_mod (address + 2 ^ 24))).
  rewrite (decrypt_agree_24 _ _ (agree_low_24_mod address)).
  f_equal. rewrite <- (Z.mul_1_l (2 ^ 24)) at 1. apply Z.mod_add. lia.
Qed.

(** ** One key entry per word *)

Lemma decrypt_from_same_entry key key' word_address n : forall i aux,
  sub 0 key (Z.land word_address 0xff) = sub 0 key' (Z.land word_address 0xff) ->
  decrypt_from key word_address i n aux = decrypt_from key' word_address i n aux.
Proof.
  induction n as [| n IH]; intros i aux Hentry; [reflexivity |].
  cbn [decrypt_from]. rewrite IH by assumption.
  unfold decrypt_step. rewrite Hentry. reflexivity.
Qed.

(** X5.  A word is decrypted with the one key entry selected by the
    lowest address byte: two keys with the same entry there give the
    same plain word, whatever their other 255 entries. *)
Theorem decrypt_reads_one_key_entry (key key' : list Z) (cipherword address : Z) :
  sub 0 key (Z.land address 0xff) = sub 0 key' (Z.land address 0xff) ->
  decrypt key cipherword address = decrypt key' cipherword address.
Proof.
  intros Hentry. unfold decrypt.
  rewrite (decrypt_from_same_entry key key') by assumption. reflexivity.
Qed.

Lemma decrypt_reads_one_key_entry_witness :
  decrypt orleg2_key 0x1234 0x12359 = decrypt m312cn_key 0x1234 0x12359.
Proof.
  apply (decrypt_reads_one_key_entry orleg2_key m312cn_key 0x1234 0x12359).
  reflexivity.
Defined.

(** ** The scan of a group *)

Section GroupScan.

Variable address : Z.
Variable group : list Z.
Hypothesis Hgroup : Forall (Z.le 0) group.

Lemma rot_enabled_from_none n : forall j,
  (forall j', j <= j' < j + Z.of_nat n ->
     Z.testbit address (8 + sub 0 group j') = false) ->
  rot_enabled_from address group j n = 0.
Proof.
  induction n as [| n IH]; intros j Hclear; [reflexivity |].
  cbn [rot_enabled_from].
  rewrite truthy_BIT by (pose proof (sub_nonneg group j Hgroup); lia).
  rewrite Hclear by lia. apply IH. intros j' Hj'. apply Hclear. lia.
Qed.

Lemma rot_enabled_from_first n : forall j m,
  j <= m < j + Z.of_nat n ->
  (forall j', j <= j' < m -> Z.testbit address (8 + sub 0 group j') = false) ->
  Z.testbit address (8 + sub 0 group m) = true ->
  rot_enabled_from address group j n =
  sub2 rot_enabling (sub 0 group m)
       (Z.land (Z.lxor address (0x1b * BIT address 2)) 3)
       (Z.lxor address (0x1b * BIT address 2)).
Proof.
  induction n as [| n IH]; intros j m Hm Hclear Hset; [lia |].
  cbn [rot_enabled_from].
  rewrite truthy_BIT by (pose proof (sub_nonneg group j Hgroup); lia).
  destruct (Z.eq_dec j m) as [-> | Hne].
  - rewrite Hset. reflexivity.
  - rewrite Hclear by lia. apply IH; [lia | | assumption].
    intros j' Hj'. apply Hclear. lia.
Qed.

End GroupScan.

(** X6.  [rot_enabled] looks at the four address bits of its group in
    the order of the group array: with none of them set it returns 0
    without consulting any table, and otherwise the first one set alone
    selects the enabling function; the bits after it in the array do not
    matter. *)
Theorem rot_enabled_first_set_bit (address : Z) (group : list Z) :
  Forall (Z.le 0) group ->
  ((forall j, 0 <= j < 4 -> Z.testbit address (8 + sub 0 group j) = false) ->
   rot_enabled address group = 0)
  /\ (forall m, 0 <= m < 4 ->
        (forall j, 0 <= j < m -> Z.testbit address (8 + sub 0 group j) = false) ->
        Z.testbit address (8 + sub 0 group m) = true ->
        rot_enabled address group =
        sub2 rot_enabling (sub 0 group m)
             (Z.land (Z.lxor address (0x1b * BIT address 2)) 3)
             (Z.lxor address (0x1b * BIT address 2))).
Proof.
  intros Hgroup. split.
  - intros Hclear. apply rot_enabled_from_none; [assumption |].
    intros j Hj. apply Hclear. lia.
  - intros m Hm Hclear Hset.
    apply rot_enabled_from_first; [assumption | lia | assumption | assumption].
Qed.

Lemma rot_enabled_first_set_bit_witness :
  rot_enabled 0x084800 group13 =
  sub2 rot_enabling 6 (Z.land (Z.lxor 0x084800 (0x1b * BIT 0x084800 2)) 3)
       (Z.lxor 0x084800 (0x1b * BIT 0x084800 2)).
Proof.
  refine (proj2 (rot_enabled_first_set_bit 0x084800 group13 _) 2 _ _ _).
  - repeat (constructor; try lia).
  - lia.
  - intros j Hj. assert (Hcases : j = 0 \/ j = 1) by lia.
    destruct Hcases as [-> | ->]; reflexivity.
  - reflexivity.
Defined.

(** ** The first 256 words of every 2^24 *)

Lemma high_bits_clear address n :
  Z.land (Z.shiftr address 8) 0xffff = 0 -> 8 <= n < 24 ->
  Z.testbit address n = false.
Proof.
  intros Hhigh Hn.
  assert (Hbit : Z.testbit (Z.land (Z.shiftr address 8) 0xffff) (n - 8) = false)
    by (rewrite Hhigh; apply Z.bits_0).
  rewrite Z.land_spec, Z.shiftr_spec in Hbit by lia.
  replace (n - 8 + 8) with n in Hbit by lia.
  change 0xffff with (Z.ones 16) in Hbit.
  rewrite Z.ones_spec_low, andb_true_r in Hbit by lia. exact Hbit.
Qed.

(** X7.  Where the 16 highest address bits are all zero no group
    rotates: the rotation is the block contribution of the lowest bits
    alone, masked to 4 bits. *)
Theorem rotation_without_high_bits (address : Z) :
  Z.land (Z.shiftr address 8) 0xffff = 0 ->
  rotation_rot address = 0
  /\ rotation address = Z.land (rotation_rot2 address) 0xf.
Proof.
  intros Hhigh.
  assert (Hoff : forall group,
             In group [group15; group14; group13; group12] ->
             rot_enabled address group = 0).
  { intros group Hin. destruct (groups_in_table group Hin) as [Hbound _].
    apply rot_enabled_from_none.
    - eapply Forall_impl; [exact Hbound |]. cbn beta. intros g Hg. lia.
    - intros j _. pose proof (sub_bounded group j Hbound).
      apply high_bits_clear; [assumption | lia]. }
  assert (Hrot : rotation_rot address = 0).
  { unfold rotation_rot.
    rewrite (Hoff group15), (Hoff group14), (Hoff group13), (Hoff group12)
      by (cbn [In]; auto).
    reflexivity. }
  split; [exact Hrot |]. unfold rotation. rewrite Hrot. reflexivity.
Qed.

Lemma rotation_without_high_bits_witness :
  rotation 0x9b = Z.land (rotation_rot2 0x9b) 0xf.
Proof.
  apply (rotation_without_high_bits 0x9b). reflexivity.
Defined.

(** ** The size of the rotation summands *)

Section Summands.

Lemma bit_cases x n : 0 <= n -> BIT x n = 0 \/ BIT x n = 1.
Proof.
  intros Hn. rewrite BIT_b2z by assumption.
  destruct (Z.testbit x n); [right | left]; reflexivity.
Qed.

Lemma tables_return_bits :
  Forall (Forall returns_bit) rot_enabling
  /\ Forall (Forall returns_bit) rot_direction.
Proof.
  split;
    repeat match goal with |- Forall _ _ => constructor end;
    intros x;
    unfold unknown, cZero, cOne, bit_3, bit_4, bit_7, not_3, not_4, not_7,
      xor_37, xnor_37, xor_47, xnor_47, nor_34, impl_43;
    rewrite ?BIT_b2z by lia;
    destruct (Z.testbit x 3), (Z.testbit x 4), (Z.testbit x 7);
    cbn; auto.
Qed.

Lemma sub2_returns_bit table i j :
  Forall (Forall returns_bit) table -> returns_bit (sub2 table i j).
Proof.
  intros Htable. unfold sub2, sub.
  destruct (nth_in_or_default (Z.to_nat i) table []) as [Hrow | ->].
  - rewrite List.Forall_forall in Htable. specialize (Htable _ Hrow).
    destruct (nth_in_or_default (Z.to_nat j)
                (nth (Z.to_nat i) table []) cZero) as [Hf | ->].
    + rewrite List.Forall_forall in Htable. exact (Htable _ Hf).
    + intros x. left. reflexivity.
  - destruct (Z.to_nat j); intros x; left; reflexivity.
Qed.

Variable address : Z.

Lemma rot_enabled_from_bit group n : forall j,
  rot_enabled_from address group j n = 0
  \/ rot_enabled_from address group j n = 1.
Proof.
  induction n as [| n IH]; intros j; [left; reflexivity |].
  cbn [rot_enabled_from]. destruct (truthy _); [| apply IH].
  apply sub2_returns_bit, tables_return_bits.
Qed.

Lemma rot_group_sign group :
  rot_group address group = -1 \/ rot_group address group = 1.
Proof.
  unfold rot_group.
  destruct (sub2_returns_bit rot_direction
              (Z.land (sub 0 group 0) 3) (Z.land address 7)
              (proj2 tables_return_bits) address) as [-> | ->];
    [left | right]; reflexivity.
Qed.

Lemma rotation_rot_bound : -16 <= rotation_rot address <= 16.
Proof.
  unfold rotation_rot, rot_enabled.
  destruct (rot_enabled_from_bit group15 4 0) as [-> | ->],
    (rot_enabled_from_bit group14 4 0) as [-> | ->],
    (rot_enabled_from_bit group13 4 0) as [-> | ->],
    (rot_enabled_from_bit group12 4 0) as [-> | ->],
    (rot_group_sign group15) as [-> | ->],
    (rot_group_sign group14) as [-> | ->],
    (rot_group_sign group13) as [-> | ->],
    (rot_group_sign group12) as [-> | ->];
    rewrite ?Z.lxor_0_l, ?Z.lxor_0_r, ?Z.lxor_nilpotent; lia.
Qed.

Lemma rotation_rot2_bound : -7 <= rotation_rot2 address <= 9.
Proof.
  rewrite rotation_rot2_formula.
  destruct (Z.testbit address 0), (Z.testbit address 1),
    (Z.testbit address 3), (Z.testbit address 4), (Z.testbit address 7);
    unfold rot2_formula; cbn [Z.b2z orb andb xorb negb]; lia.
Qed.

End Summands.

(** X8.  At every address each group is off or on (0 or 1) and turns
    one way or the other (-1 or 1), so the group contribution lies in
    -16..16 and the block contribution in -7..9: the sum that is masked
    with [0xf] lies in -23..25, far inside an [int]. *)
Theorem rotation_summands_bounded (address : Z) :
  (forall group : list Z,
     (rot_enabled address group = 0 \/ rot_enabled address group = 1)
     /\ (rot_group address group = -1 \/ rot_group address group = 1))
  /\ -16 <= rotation_rot address <= 16
  /\ -7 <= rotation_rot2 address <= 9
  /\ -23 <= rotation_rot address + rotation_rot2 address <= 25.
Proof.
  pose proof (rotation_rot_bound address).
  pose proof (rotation_rot2_bound address).
  split; [| lia].
  intros group. split; [apply rot_enabled_from_bit | apply rot_group_sign].
Qed.

(** ** Rotations compose *)

Lemma rol_range num shift : 0 <= rol num shift < 2 ^ 16.
Proof. unfold rol. apply to_u16_range. Qed.

Lemma rol_rol num s t :
  0 <= num < 2 ^ 16 -> 0 <= s <= 15 -> 0 <= t <= 15 ->
  rol (rol num s) t = rol num ((s + t) mod 16).
Proof.
  intros Hnum Hs Ht.
  assert (Hst : 0 <= (s + t) mod 16 < 16) by (apply Z.mod_pos_bound; lia).
  apply u16_eq; [apply rol_range | apply rol_range |].
  intros i Hi.
  assert (Hit : 0 <= (i - t) mod 16 < 16) by (apply Z.mod_pos_bound; lia).
  rewrite (rol_testbit (rol num s)) by (apply rol_range || lia).
  rewrite !rol_testbit by (assumption || lia).
  f_equal. Z.div_mod_to_equations. lia.
Qed.

(** X9.  On 16-bit words [rol] by [s] and then by [t] is [rol] by
    [s + t] modulo 16, for shifts in 0..15; so rotating on by [16 - s]
    (by 0 when [s] is 0) gives the word back, and [rol] by any such shift
    loses nothing. *)
Theorem rol_composes (num s t : Z) :
  0 <= num < 2 ^ 16 -> 0 <= s <= 15 -> 0 <= t <= 15 ->
  rol (rol num s) t = rol num ((s + t) mod 16)
  /\ rol (rol num s) ((16 - s) mod 16) = num
  /\ 0 <= rol num s < 2 ^ 16.
Proof.
  intros Hnum Hs Ht. split; [apply rol_rol; assumption |].
  split; [| apply rol_range].
  assert (Hback : 0 <= (16 - s) mod 16 <= 15)
    by (pose proof (Z.mod_pos_bound (16 - s) 16); lia).
  rewrite rol_rol by assumption.
  replace ((s + (16 - s) mod 16) mod 16) with 0
    by (Z.div_mod_to_equations; lia).
  apply rol_0. assumption.
Qed.

Lemma rol_composes_witness :
  rol (rol 0x8001 13) 7 = rol 0x8001 4.
Proof.
  apply (rol_composes 0x8001 13 7); lia.
Defined.

(** ** More on the region transform *)

Section RegionMore.

Variable be : bool.
Variable key : list Z.

Lemma byte_val_inj b b' : byte_val b = byte_val b' -> b = b'.
Proof.
  unfold byte_val. intros H. apply N2Z.inj in H.
  pose proof (Byte.of_to_N b) as Hb. pose proof (Byte.of_to_N b') as Hb'.
  rewrite H in Hb. congruence.
Qed.

Lemma byte_val_bound b : 0 <= byte_val b < 256.
Proof. unfold byte_val. pose proof (Byte.to_N_bounded b). lia. Qed.

(** The loop run in two parts. *)
Lemma decrypter_rom_from_split n m : forall (rom : list byte) i,
  decrypter_rom_from key be rom i (n + m) =
  decrypter_rom_from key be (decrypter_rom_from key be rom i n)
    (i + Z.of_nat n) m.
Proof.
  induction n as [| n IH]; intros rom i.
  - cbn [Nat.add decrypter_rom_from]. f_equal. lia.
  - cbn [Nat.add decrypter_rom_from]. rewrite IH. f_equal. lia.
Qed.

(** The loop leaves what lies before its first word as it is. *)
Lemma decrypter_rom_from_take n : forall (rom : list byte) i,
  0 <= i ->
  take (Z.to_nat (2 * i)) (decrypter_rom_from key be rom i n) =
  take (Z.to_nat (2 * i)) rom.
Proof.
  induction n as [| n IH]; intros rom i Hi; [reflexivity |].
  cbn [decrypter_rom_from].
  set (rom' := rom_set be rom i (decrypt key (rom_get be rom i) i)).
  pose proof (IH rom' (i + 1) ltac:(lia)) as Hnext.
  apply (f_equal (take (Z.to_nat (2 * i)))) in Hnext.
  rewrite !take_take in Hnext.
  replace (Z.to_nat (2 * i) `min` Z.to_nat (2 * (i + 1)))%nat
    with (Z.to_nat (2 * i)) in Hnext by lia.
  rewrite Hnext. subst rom'. unfold rom_set.
  destruct be; rewrite !take_insert_ge by lia; reflexivity.
Qed.

(** The loop leaves what lies behind its last word as it is. *)
Lemma decrypter_rom_from_lookup_ge n : forall (rom : list byte) i (k : nat),
  0 <= i -> 2 * (i + Z.of_nat n) <= Z.of_nat k ->
  decrypter_rom_from key be rom i n !! k = rom !! k.
Proof.
  induction n as [| n IH]; intros rom i k Hi Hk; [reflexivity |].
  cbn [decrypter_rom_from]. rewrite IH by lia.
  apply rom_set_lookup_other; lia.
Qed.

Lemma length_decrypter_rom (region : memory_region) :
  length (decrypter_rom key be region) = length region.
Proof. unfold decrypter_rom. apply length_decrypter_rom_from. Qed.

Lemma decrypter_rom_prefix (region : memory_region) (k : nat) :
  Z.of_nat (length region) < 2 ^ 31 ->
  (2 * k <= length region)%nat ->
  take (2 * k) (decrypter_rom key be region) =
  decrypter_rom key be (take (2 * k) region).
Proof.
  intros Hsize Hk.
  assert (Htake : length (take (2 * k) region) = (2 * k)%nat)
    by (rewrite length_take; lia).
  rewrite (decrypter_rom_loop be key (take (2 * k) region))
    by (rewrite Htake; lia).
  rewrite Htake.
  replace (Z.to_nat (Z.of_nat (2 * k) / 2)) with k
    by (Z.div_mod_to_equations; lia).
  rewrite decrypter_rom_loop by assumption.
  replace (Z.to_nat (Z.of_nat (length region) / 2))
    with (k + (Z.to_nat (Z.of_nat (length region) / 2) - k))%nat
    by (Z.div_mod_to_equations; lia).
  rewrite decrypter_rom_from_split.
  replace (2 * k)%nat with (Z.to_nat (2 * (0 + Z.of_nat k))) at 1 by lia.
  rewrite decrypter_rom_from_take by lia.
  replace (Z.to_nat (2 * (0 + Z.of_nat k))) with (2 * k)%nat by lia.
  rewrite <- (take_drop (2 * k) region) at 1.
  rewrite decrypter_rom_from_app by (rewrite ?Htake; lia).
  rewrite take_app_length'; [reflexivity |].
  rewrite length_decrypter_rom_from. symmetry. exact Htake.
Qed.

Lemma rom_get_range (rom : list byte) i : 0 <= rom_get be rom i < 2 ^ 16.
Proof.
  unfold rom_get.
  pose proof (byte_val_bound (sub x00 rom (2 * i))).
  pose proof (byte_val_bound (sub x00 rom (2 * i + 1))).
  destruct be; lia.
Qed.

(** Two regions with the same word at index [i] have the same two
    bytes there. *)
Lemma rom_get_inj (r1 r2 : list byte) i :
  rom_get be r1 i = rom_get be r2 i ->
  sub x00 r1 (2 * i) = sub x00 r2 (2 * i)
  /\ sub x00 r1 (2 * i + 1) = sub x00 r2 (2 * i + 1).
Proof.
  unfold rom_get. intros Heq.
  pose proof (byte_val_bound (sub x00 r1 (2 * i))).
  pose proof (byte_val_bound (sub x00 r1 (2 * i + 1))).
  pose proof (byte_val_bound (sub x00 r2 (2 * i))).
  pose proof (byte_val_bound (sub x00 r2 (2 * i + 1))).
  split; apply byte_val_inj; destruct be; lia.
Qed.

Lemma decrypter_rom_injective (r1 r2 : memory_region) :
  Z.of_nat (length r1) < 2 ^ 31 -> length r1 = length r2 ->
  decrypter_rom key be r1 = decrypter_rom key be r2 -> r1 = r2.
Proof.
  intros Hsize Hlen Heq.
  assert (Hsize2 : Z.of_nat (length r2) < 2 ^ 31) by (rewrite <- Hlen; assumption).
  apply list_eq. intros k.
  destruct (Z.lt_ge_cases (Z.of_nat k) (2 * (Z.of_nat (length r1) / 2)))
    as [Hin | Hout].
  - assert (Hword : rom_get be r1 (Z.of_nat k / 2) = rom_get be r2 (Z.of_nat k / 2)).
    { apply (decrypt_injective key (Z.of_nat k / 2));
        [apply rom_get_range | apply rom_get_range |].
      assert (Hget : rom_get be (decrypter_rom key be r1) (Z.of_nat k / 2) =
                     rom_get be (decrypter_rom key be r2) (Z.of_nat k / 2))
        by (rewrite Heq; reflexivity).
      rewrite !decrypter_rom_loop, !decrypter_rom_from_get in Hget
        by (assumption || Z.div_mod_to_equations; lia).
      rewrite <- Hlen in Hget.
      replace ((0 <=? Z.of_nat k / 2)
               && (Z.of_nat k / 2 <?
                   0 + Z.of_nat (Z.to_nat (Z.of_nat (length r1) / 2))))
        with true in Hget; [exact Hget |].
      symmetry. apply andb_true_iff. split;
        [apply Z.leb_le | apply Z.ltb_lt]; Z.div_mod_to_equations; lia. }
    destruct (rom_get_inj r1 r2 _ Hword) as [H0 H1].
    unfold sub in H0, H1.
    assert (Hk : Z.of_nat k = 2 * (Z.of_nat k / 2)
                 \/ Z.of_nat k = 2 * (Z.of_nat k / 2) + 1)
      by (Z.div_mod_to_equations; lia).
    destruct (nth_lookup_or_length r1 k x00) as [-> | ?];
      [| Z.div_mod_to_equations; lia].
    destruct (nth_lookup_or_length r2 k x00) as [-> | ?];
      [| Z.div_mod_to_equations; lia].
    f_equal. destruct Hk as [Hk | Hk].
    + replace k with (Z.to_nat (2 * (Z.of_nat k / 2))) by lia. exact H0.
    + replace k with (Z.to_nat (2 * (Z.of_nat k / 2) + 1)) by lia. exact H1.
  - assert (Hget : decrypter_rom key be r1 !! k = decrypter_rom key be r2 !! k)
      by (rewrite Heq; reflexivity).
    rewrite !decrypter_rom_loop in Hget by assumption.
    rewrite !decrypter_rom_from_lookup_ge in Hget
      by (rewrite <- ?Hlen; Z.div_mod_to_equations; lia).
    exact Hget.
Qed.

End RegionMore.

(** X10.  [decrypter_rom] never changes the size of a region, whatever
    that size; and a region of fewer than two bytes, the empty one
    included, holds no word and is returned as it is. *)
Theorem decrypter_rom_keeps_size (key : list Z) (be : bool) (region : memory_region) :
  length (decrypter_rom key be region) = length region
  /\ ((length region < 2)%nat -> decrypter_rom key be region = region).
Proof.
  split; [apply length_decrypter_rom |].
  intros Hshort. rewrite decrypter_rom_loop by lia.
  replace (Z.to_nat (Z.of_nat (length region) / 2)) with 0%nat
    by (Z.div_mod_to_equations; lia).
  reflexivity.
Qed.

Lemma decrypter_rom_keeps_size_witness :
  decrypter_rom cjdh2_key false [xa5] = [xa5].
Proof.
  apply (proj2 (decrypter_rom_keeps_size cjdh2_key false [xa5])).
  cbn [length]. lia.
Defined.

(** X11.  On a region whose size fits an [int], the first [k] words of
    the result are the result for the first [k] words alone: an image cut
    short at a word boundary decrypts to the decrypted image cut short
    there. *)
Theorem decrypter_rom_of_prefix (key : list Z) (be : bool)
    (region : memory_region) (k : nat) :
  Z.of_nat (length region) < 2 ^ 31 ->
  (2 * k <= length region)%nat ->
  take (2 * k) (decrypter_rom key be region) =
  decrypter_rom key be (take (2 * k) region).
Proof. apply decrypter_rom_prefix. Qed.

Lemma decrypter_rom_of_prefix_witness :
  take 2 (decrypter_rom kov2_key true [x01; x02; x03; x04; x05]) =
  decrypter_rom kov2_key true [x01; x02].
Proof.
  apply (decrypter_rom_of_prefix kov2_key true [x01; x02; x03; x04; x05] 1).
  - cbn [length]. lia.
  - cbn [length]. lia.
Defined.

(** X12.  On regions whose size fits an [int], [decrypter_rom] loses
    nothing: two regions of one size with the same result are the same
    region, byte for byte, the odd trailing byte included. *)
Theorem decrypter_rom_is_injective (key : list Z) (be : bool)
    (r1 r2 : memory_region) :
  Z.of_nat (length r1) < 2 ^ 31 -> length r1 = length r2 ->
  decrypter_rom key be r1 = decrypter_rom key be r2 -> r1 = r2.
Proof. apply decrypter_rom_injective. Qed.

Lemma decrypter_rom_is_injective_witness :
  [x01; x02; x03] = [x01; x02; x03].
Proof.
  apply (decrypter_rom_is_injective ddpdoj_key false
           [x01; x02; x03] [x01; x02; x03]).
  - cbn [length]. lia.
  - reflexivity.
  - reflexivity.
Defined.

(** ** The keys of the file *)

Lemma key_ok_check (key : list Z) :
  (length key =? 256)%nat
  && forallb (fun v => (0 <=? v) && (v <? 2 ^ 16)) key = true ->
  key_ok key.
Proof.
  intros Hcheck. apply andb_true_iff in Hcheck. destruct Hcheck as [Hlen Hall].
  split; [apply Nat.eqb_eq; exact Hlen |].
  apply List.Forall_forall. intros v Hv.
  rewrite List.forallb_forall in Hall. specialize (Hall v Hv).
  apply andb_true_iff in Hall. destruct Hall as [Hlo Hhi].
  apply Z.leb_le in Hlo. apply Z.ltb_lt in Hhi. lia.
Qed.

Lemma game_keys_ok : Forall key_ok game_keys.
Proof.
  unfold game_keys.
  repeat (apply List.Forall_cons; [apply key_ok_check; vm_compute; reflexivity |]).
  apply List.Forall_nil.
Qed.

(** X13.  Each of the eight keys of the file has 256 entries of 16 bits;
    so with any of them [decrypt] meets no undefined shift or subscript,
    at any address and for any 16-bit cipher word. *)
Theorem game_keys_well_formed :
  Forall key_ok game_keys
  /\ forall (key : list Z) (cipherword word_address : Z),
       In key game_keys -> 0 <= cipherword < 2 ^ 16 ->
       Partial.decrypt key cipherword word_address
       = Some (decrypt key cipherword word_address).
Proof.
  split; [exact game_keys_ok |].
  intros key cipherword word_address Hin Hc.
  pose proof game_keys_ok as Hok. rewrite List.Forall_forall in Hok.
  destruct (Hok key Hin) as [Hlen _].
  apply decrypt_defined; assumption.
Qed.

Lemma game_keys_well_formed_witness :
  Partial.decrypt kof98umh_key 0xbeef 0x3fffff
  = Some (decrypt kof98umh_key 0xbeef 0x3fffff).
Proof.
  apply (proj2 game_keys_well_formed kof98umh_key 0xbeef 0x3fffff).
  - cbn [game_keys In]. auto 10.
  - lia.
Defined.

(** X14.  A key with fewer entries than the lowest address byte
    requires is read outside its bounds: at such an address the
    evaluation of [decrypt] has no defined result. *)
Theorem decrypt_short_key_undefined (key : list Z) (cipherword word_address : Z) :
  0 <= cipherword < 2 ^ 16 ->
  Z.of_nat (length key) <= Z.land word_address 0xff ->
  Partial.decrypt key cipherword word_address = None.
Proof.
  intros Hc Hshort.
  assert (Hmiss : Partial.at_ key (Z.land word_address 0xff) = None).
  { unfold Partial.at_. destruct (_ <=? _); [| reflexivity].
    apply lookup_ge_None. lia. }
  assert (Hstep : forall i aux,
             Partial.decrypt_step key word_address i aux = None).
  { intros i aux. unfold Partial.decrypt_step. rewrite Hmiss. reflexivity. }
  unfold Partial.decrypt.
  rewrite deobfuscate_defined by assumption. cbn [mbind option_bind].
  cbn [Partial.decrypt_from]. rewrite Hstep. reflexivity.
Qed.

Lemma decrypt_short_key_undefined_witness :
  Partial.decrypt (take 16 orleg2_key) 0x1234 0x12345 = None.
Proof.
  apply (decrypt_short_key_undefined (take 16 orleg2_key) 0x1234 0x12345).
  - lia.
  - vm_compute. discriminate.
Defined.
